(** * hashmyfiles: a shallow embedding of [main.py] and [database.py]

    The program walks a directory tree, hashes the media files it finds
    with SHA-256 and keeps the hashes in an SQLite table [hashes] that
    lives in a file inside the walked directory.  The development below
    embeds, in this order,

    - the string helpers of the Python runtime the code calls
      ([str.endswith], [str.startswith], [str.lower], [os.path.join]);
    - [hashlib.sha256], as the FIPS 180-4 function on byte lists;
    - the file system, as a tree of named nodes reached through the path
      strings that [os.path.join] builds;
    - the SQLite statements of [database.py];
    - the functions of [database.py] and [main.py], in a state and
      exception monad whose state is the file system together with the
      trace of observable effects. *)

From Stdlib Require Import List Strings.String Strings.Ascii Strings.Byte ZArith Lia Bool Arith.
From Equations Require Import Equations.
Import ListNotations.

Set Implicit Arguments.
Local Open Scope string_scope.

(* ===================================================================== *)
(** ** Strings of the Python runtime *)
(* ===================================================================== *)

Module PyStr.

(** [s.startswith(p)] *)
Definition startswith (s p : string) : bool := String.prefix p s.

(** [s.endswith(p)]: the last [len(p)] characters of [s] are [p]. *)
Definition endswith (s p : string) : bool :=
  let n := String.length s in
  let m := String.length p in
  (m <=? n)%nat && String.eqb (String.substring (n - m) m s) p.

(** [s.endswith(t)] for a tuple [t]: some member is a suffix. *)
Definition endswith_any (s : string) (t : list string) : bool :=
  existsb (endswith s) t.

(** [str.lower] on the ASCII range. *)
Definition lower_ascii (c : ascii) : ascii :=
  let n := nat_of_ascii c in
  if ((65 <=? n) && (n <=? 90))%nat then ascii_of_nat (n + 32) else c.

Fixpoint lower (s : string) : string :=
  match s with
  | EmptyString => EmptyString
  | String c r => String (lower_ascii c) (lower r)
  end.

(** [str(n)] for a non-negative integer. *)
Definition digit (n : nat) : ascii := ascii_of_nat (48 + n mod 10).

Fixpoint str_nat_aux (fuel n : nat) (acc : string) : string :=
  match fuel with
  | O => acc
  | S fuel' =>
      let acc' := String (digit n) acc in
      if (n <? 10)%nat then acc' else str_nat_aux fuel' (n / 10) acc'
  end.

Definition str_nat (n : nat) : string := str_nat_aux (S n) n "".

End PyStr.

(** [os.path.join(a, b)] of [posixpath], for two components. *)
Definition path_join (a b : string) : string :=
  if PyStr.startswith b "/" then b
  else if String.eqb a "" || PyStr.endswith a "/" then a ++ b
  else a ++ "/" ++ b.

(* ===================================================================== *)
(** ** [hashlib.sha256] *)
(* ===================================================================== *)

Module SHA256.
Local Open Scope Z_scope.

Definition w32 (x : Z) : Z := x mod 2 ^ 32.
Definition add32 (x y : Z) : Z := w32 (x + y).
Definition rotr (n x : Z) : Z :=
  Z.lor (Z.shiftr x n) (w32 (Z.shiftl x (32 - n))).
Definition shr (n x : Z) : Z := Z.shiftr x n.
Definition not32 (x : Z) : Z := Z.lxor x 4294967295.

Definition Ch (x y z : Z) : Z := Z.lxor (Z.land x y) (Z.land (not32 x) z).
Definition Maj (x y z : Z) : Z :=
  Z.lxor (Z.lxor (Z.land x y) (Z.land x z)) (Z.land y z).
Definition Sigma0 (x : Z) : Z :=
  Z.lxor (Z.lxor (rotr 2 x) (rotr 13 x)) (rotr 22 x).
Definition Sigma1 (x : Z) : Z :=
  Z.lxor (Z.lxor (rotr 6 x) (rotr 11 x)) (rotr 25 x).
Definition sigma0 (x : Z) : Z :=
  Z.lxor (Z.lxor (rotr 7 x) (rotr 18 x)) (shr 3 x).
Definition sigma1 (x : Z) : Z :=
  Z.lxor (Z.lxor (rotr 17 x) (rotr 19 x)) (shr 10 x).

(** The constants are what the standard says they are: the first 32 bits
    of the fractional parts of the cube roots of the first 64 primes, and
    of the square roots of the first 8. *)
Definition is_prime (n : Z) : bool :=
  (1 <? n) &&
  forallb (fun d => negb (n mod d =? 0))
          (map Z.of_nat (seq 2 (Z.to_nat n - 2))).

Definition primes : list Z := filter is_prime (map Z.of_nat (seq 2 310)).

(** The largest [r] below [2 ^ bits] with [r ^ k <= n], bit by bit. *)
Fixpoint int_root (k n : Z) (bits : nat) (r : Z) : Z :=
  match bits with
  | O => r
  | S b =>
      let r' := r + 2 ^ Z.of_nat b in
      int_root k n b (if r' ^ k <=? n then r' else r)
  end.

Definition frac_root (k p : Z) : Z :=
  w32 (int_root k (p * 2 ^ (32 * k)) 40 0).

Definition K : list Z := Eval vm_compute in map (frac_root 3) (firstn 64 primes).

Definition H0 : list Z := Eval vm_compute in map (frac_root 2) (firstn 8 primes).

(** Padding: a [1] bit, zeros up to 56 modulo 64, the bit length on
    eight bytes, most significant first. *)
Definition be_bytes (n : nat) (x : Z) : list Z :=
  map (fun i => (Z.shiftr x (8 * Z.of_nat (n - 1 - i))) mod 256) (seq 0 n).

Definition pad (msg : list Z) : list Z :=
  let len := Z.of_nat (List.length msg) in
  let zeros := Z.to_nat ((55 - len) mod 64) in
  msg ++ [128] ++ repeat 0 zeros ++ be_bytes 8 (8 * len).

(** Big-endian words of a byte list whose length is a multiple of 4. *)
Fixpoint words (bs : list Z) : list Z :=
  match bs with
  | a :: b :: c :: d :: r =>
      (Z.shiftl a 24 + Z.shiftl b 16 + Z.shiftl c 8 + d) :: words r
  | _ => []
  end.

(** The message schedule, kept newest first while it grows. *)
Fixpoint schedule (n : nat) (rev_w : list Z) : list Z :=
  match n with
  | O => rev_w
  | S n' =>
      let w := add32 (add32 (sigma1 (nth 1 rev_w 0)) (nth 6 rev_w 0))
                     (add32 (sigma0 (nth 14 rev_w 0)) (nth 15 rev_w 0)) in
      schedule n' (w :: rev_w)
  end.

Definition round (st : list Z) (kw : Z * Z) : list Z :=
  match st with
  | [a; b; c; d; e; f; g; h] =>
      let t1 := add32 (add32 (add32 h (Sigma1 e)) (add32 (Ch e f g) (fst kw)))
                      (snd kw) in
      let t2 := add32 (Sigma0 a) (Maj a b c) in
      [add32 t1 t2; a; b; c; add32 d t1; e; f; g]
  | _ => st
  end.

Definition compress (h : list Z) (block : list Z) : list Z :=
  let w := rev (schedule 48 (rev block)) in
  let st := fold_left round (combine K w) h in
  map (fun p => add32 (fst p) (snd p)) (combine h st).

Fixpoint blocks (n : nat) (ws : list Z) : list (list Z) :=
  match n with
  | O => []
  | S n' =>
      match ws with
      | [] => []
      | _ => firstn 16 ws :: blocks n' (skipn 16 ws)
      end
  end.

Definition digest_words (msg : list Z) : list Z :=
  let ws := words (pad msg) in
  fold_left compress (blocks (List.length ws) ws) H0.

Definition hex_digit (n : Z) : ascii :=
  ascii_of_nat (Z.to_nat (if n <? 10 then 48 + n else 87 + n)).

Definition hex_word (w : Z) : string :=
  string_of_list_ascii
    (map (fun i => hex_digit ((Z.shiftr w (4 * Z.of_nat (7 - i))) mod 16))
         (seq 0 8)).

(** [hashlib.sha256(msg).hexdigest()] *)
Definition hexdigest (msg : list byte) : string :=
  String.concat ""
    (map hex_word (digest_words (map (fun b => Z.of_N (Byte.to_N b)) msg))).

End SHA256.

Example sha256_constants :
  List.length SHA256.K = 64%nat /\
  hd 0%Z SHA256.K = 0x428a2f98%Z /\ last SHA256.K 0%Z = 0xc67178f2%Z /\
  hd 0%Z SHA256.H0 = 0x6a09e667%Z /\ last SHA256.H0 0%Z = 0x5be0cd19%Z.
Proof. vm_compute. repeat split. Qed.

Example sha256_abc :
  SHA256.hexdigest (list_byte_of_string "abc")
  = "ba7816bf8f01cfea414140de5dae2223b00361a396177a9cb410ff61f20015ad".
Proof. vm_compute. reflexivity. Qed.

Example sha256_empty :
  SHA256.hexdigest []
  = "e3b0c44298fc1c149afbf4c8996fb92427ae41e4649b934ca495991b7852b855".
Proof. vm_compute. reflexivity. Qed.

(* ===================================================================== *)
(** ** The file system *)
(* ===================================================================== *)

(** Rows of the table [hashes(path TEXT PRIMARY KEY, hash TEXT)], in
    insertion order. *)
Definition row : Type := string * string.
Definition table : Type := list row.

(** An SQLite database, as far as the program looks at it: the table
    [hashes] is there or it is not. *)
Definition database : Type := option table.

(** What a regular file holds: bytes that are no database, or a database.
    The empty file is what SQLite takes for a database without tables. *)
Inductive content : Type :=
| Raw (bytes : list byte)
| Sqlite (db : database).

#[local] Set Warnings "-register-all".

(** The directory tree: names and kinds.  Contents are kept apart, by
    path. *)
Inductive node : Type :=
| File
| Dir (entries : list (string * node)).

Record filesystem : Type := mkFs {
  roots : list (string * node);   (* the paths the operator can name *)
  data : string -> content        (* contents of the regular files *)
}.

Fixpoint first_some {A B : Type} (f : A -> option B) (l : list A) : option B :=
  match l with
  | [] => None
  | x :: r => match f x with Some y => Some y | None => first_some f r end
  end.

(** The node a path string names under [top]: [top] itself, or a node
    reached through the paths [os.path.join] builds on the way down. *)
Fixpoint find_node (top : string) (n : node) (p : string) : option node :=
  if String.eqb top p then Some n
  else match n with
       | File => None
       | Dir es =>
           first_some (fun e => find_node (path_join top (fst e)) (snd e) p) es
       end.

Definition find_path (rs : list (string * node)) (p : string) : option node :=
  first_some (fun e => find_node (fst e) (snd e) p) rs.

Definition isdir (f : filesystem) (p : string) : bool :=
  match find_path (roots f) p with Some (Dir _) => true | _ => false end.

Definition isfile (f : filesystem) (p : string) : bool :=
  match find_path (roots f) p with Some File => true | _ => false end.

(** The name a path has inside the directory [d], when it is a direct
    child of [d]: a non-empty name without a separator. *)
Fixpoint has_sep (s : string) : bool :=
  match s with
  | EmptyString => false
  | String c r => Ascii.eqb c "/" || has_sep r
  end.

Definition child_name (d p : string) : option string :=
  let pre := if String.eqb d "" || PyStr.endswith d "/" then d else d ++ "/" in
  if PyStr.startswith p pre then
    let nm := String.substring (String.length pre)
                               (String.length p - String.length pre) p in
    if String.eqb nm "" || has_sep nm then None else Some nm
  else None.

(** Creating the regular file [p]: a new entry in the first directory that
    can hold it. *)
Fixpoint first_update {A : Type} (f : A -> option A) (l : list A)
  : option (list A) :=
  match l with
  | [] => None
  | x :: r =>
      match f x with
      | Some y => Some (y :: r)
      | None => option_map (cons x) (first_update f r)
      end
  end.

Fixpoint add_file (top : string) (n : node) (p : string) : option node :=
  match n with
  | File => None
  | Dir es =>
      match child_name top p with
      | Some nm => Some (Dir (es ++ [(nm, File)])%list)
      | None =>
          option_map Dir
            (first_update
               (fun e => option_map (pair (fst e))
                           (add_file (path_join top (fst e)) (snd e) p)) es)
      end
  end.

Definition create_file (rs : list (string * node)) (p : string)
  : option (list (string * node)) :=
  first_update (fun e => option_map (pair (fst e)) (add_file (fst e) (snd e) p)) rs.

Definition write_data (f : filesystem) (p : string) (c : content) : filesystem :=
  mkFs (roots f) (fun q => if String.eqb q p then c else data f q).

(** [os.walk(top)], top down, links not followed: one triple per
    directory, the directory first and then its subdirectories in order. *)
Definition dirnames (es : list (string * node)) : list string :=
  map fst (filter (fun e => match snd e with Dir _ => true | File => false end) es).

Definition filenames (es : list (string * node)) : list string :=
  map fst (filter (fun e => match snd e with Dir _ => false | File => true end) es).

Fixpoint os_walk (top : string) (n : node)
  : list (string * list string * list string) :=
  match n with
  | File => []
  | Dir es =>
      (top, dirnames es, filenames es)
        :: flat_map (fun e => match snd e with
                              | Dir _ => os_walk (path_join top (fst e)) (snd e)
                              | File => []
                              end) es
  end.

Definition walk (f : filesystem) (top : string)
  : list (string * list string * list string) :=
  match find_path (roots f) top with
  | Some n => os_walk top n
  | None => []
  end.

(* ===================================================================== *)
(** ** SQLite, for the statements of [database.py] *)
(* ===================================================================== *)

Module Sqlite3.

Inductive stmt : Type := CreateHashes | SelectAll | SelectByPath | InsertRow.

Definition q_create : string :=
  "CREATE TABLE IF NOT EXISTS hashes (path TEXT PRIMARY KEY, hash TEXT)".
Definition q_select_all : string := "SELECT * FROM hashes".
Definition q_select_path : string := "SELECT * FROM hashes WHERE path=?".
Definition q_insert : string := "INSERT INTO hashes VALUES (?, ?)".

(** The statements of [database.py], recognised by their text.  These
    four are all the SQL the program issues, and all that is modelled.
    What SQLite does with any other text is not described here: [execute]
    below answers it with an error only to be total, and the theorems on
    the store are about the operations of [database.py], which send these
    four. *)
Definition prepare (q : string) : option stmt :=
  if String.eqb q q_create then Some CreateHashes
  else if String.eqb q q_select_all then Some SelectAll
  else if String.eqb q q_select_path then Some SelectByPath
  else if String.eqb q q_insert then Some InsertRow
  else None.

Definition has_key (t : table) (p : string) : bool :=
  existsb (fun r => String.eqb (fst r) p) t.

(** One statement on a database: an error message, or the rows fetched
    and the database to commit when the statement wrote. *)
Definition step (s : stmt) (params : list string) (d : database)
  : string + (list row * option database) :=
  match s with
  | CreateHashes =>
      match params, d with
      | [], None => inr ([], Some (Some []))
      | [], Some _ => inr ([], None)
      | _ :: _, _ => inl "Incorrect number of bindings supplied."
      end
  | SelectAll =>
      match params, d with
      | _ :: _, _ => inl "Incorrect number of bindings supplied."
      | [], None => inl "no such table: hashes"
      | [], Some t => inr (t, None)
      end
  | SelectByPath =>
      match d, params with
      | None, _ => inl "no such table: hashes"
      | Some t, [p] => inr (filter (fun r => String.eqb (fst r) p) t, None)
      | Some _, _ => inl "Incorrect number of bindings supplied."
      end
  | InsertRow =>
      match d, params with
      | None, _ => inl "no such table: hashes"
      | Some t, [p; h] =>
          if has_key t p then inl "UNIQUE constraint failed: hashes.path"
          else inr ([], Some (Some (t ++ [(p, h)])%list))
      | Some _, _ => inl "Incorrect number of bindings supplied."
      end
  end.

(** The database SQLite reads from a file. *)
Definition load (c : content) : string + database :=
  match c with
  | Sqlite d => inr d
  | Raw [] => inr None
  | Raw (_ :: _) => inl "file is not a database"
  end.

(** [sqlite3.connect(db_file)]: the file is opened, and created empty
    when its directory exists and the name is free. *)
Definition connect (f : filesystem) (db_file : string) : string + filesystem :=
  match find_path (roots f) db_file with
  | Some File => inr f
  | Some (Dir _) => inl "unable to open database file"
  | None =>
      match create_file (roots f) db_file with
      | Some rs => inr (write_data (mkFs rs (data f)) db_file (Raw []))
      | None => inl "unable to open database file"
      end
  end.

(** [cursor.execute(query, parameters)] followed by [conn.commit()]. *)
Definition execute (f : filesystem) (db_file query : string)
           (params : list string)
  : string + (list row * filesystem) :=
  match load (data f db_file) with
  | inl e => inl e
  | inr d =>
      match prepare query with
      | None => inl "syntax error"
      | Some s =>
          match step s params d with
          | inl e => inl e
          | inr (rows, None) => inr (rows, f)
          | inr (rows, Some d') => inr (rows, write_data f db_file (Sqlite d'))
          end
      end
  end.

End Sqlite3.

(* ===================================================================== *)
(** ** Effects: the world, exceptions, the monad *)
(* ===================================================================== *)

(** What a run does that can be seen from outside, in order. *)
Inductive event : Type :=
| Print (line : string)                                  (* [print(line)] *)
| Open (path : string)                                   (* [open(path, "rb")] *)
| Execute (db_file query : string) (params : list string). (* [cursor.execute] *)

Record world : Type := mkWorld {
  fs : filesystem;
  trace : list event
}.

Inductive exn : Type :=
| SystemExit (code : Z)
| TypeError (msg : string)
| FileNotFoundError (path : string)
| IsADirectoryError (path : string).

Inductive result (A : Type) : Type :=
| Ret (a : A)
| Raise (e : exn).
Arguments Raise {A} e.

Definition M (A : Type) : Type := world -> result A * world.

Definition ret {A : Type} (a : A) : M A := fun w => (Ret a, w).

Definition bind {A B : Type} (c : M A) (k : A -> M B) : M B :=
  fun w => match c w with
           | (Ret a, w') => k a w'
           | (Raise e, w') => (Raise e, w')
           end.

Declare Scope py_scope.
Delimit Scope py_scope with py.
Notation "x <- c ;; k" := (bind c (fun x => k))
  (at level 61, c at next level, right associativity) : py_scope.
Notation "c ;; k" := (bind c (fun _ => k))
  (at level 61, right associativity) : py_scope.
Local Open Scope py_scope.

Definition raise {A : Type} (e : exn) : M A := fun w => (Raise e, w).

Definition log (e : event) : M unit :=
  fun w => (Ret tt, mkWorld (fs w) (trace w ++ [e])).

Definition print (line : string) : M unit := log (Print line).

(** [sys.exit(code)] *)
Definition sys_exit {A : Type} (code : Z) : M A := raise (SystemExit code).

(** The exit status of the interpreter for a finished script. *)
Definition exit_status {A : Type} (r : result A) : Z :=
  match r with
  | Ret _ => 0
  | Raise (SystemExit code) => code
  | Raise _ => 1
  end.

(** [for x in l: body(x)] *)
Fixpoint for_each {A : Type} (l : list A) (body : A -> M unit) : M unit :=
  match l with
  | [] => ret tt
  | x :: r => body x ;; for_each r body
  end.

(** A loop that rebinds or mutates one local variable. *)
Fixpoint for_acc {A S : Type} (l : list A) (acc : S) (body : A -> S -> M S)
  : M S :=
  match l with
  | [] => ret acc
  | x :: r => acc' <- body x acc ;; for_acc r acc' body
  end.

Definition nl : string := String (ascii_of_nat 10) "".

(** The lines printed, the files opened and the statements executed, in a
    trace and in a world. *)
Definition printed (es : list event) : list string :=
  flat_map (fun e => match e with Print s => [s] | _ => [] end) es.

Definition opens (es : list event) : list string :=
  flat_map (fun e => match e with Open p => [p] | _ => [] end) es.

Definition statements (es : list event) : list string :=
  flat_map (fun e => match e with Execute _ q _ => [q] | _ => [] end) es.

Definition stdout (w : world) : list string := printed (trace w).
Definition opened (w : world) : list string := opens (trace w).
Definition executed (w : world) : list string := statements (trace w).

(* ===================================================================== *)
(** ** [database.py] *)
(* ===================================================================== *)

Module database.

(** [execute_query(db_file, query, parameters=None)].  Every
    [sqlite3.Error] raised under the [try] is printed and turned into
    [None]; a file that [connect] created stays. *)
Definition execute_query (db_file query : string)
           (parameters : option (list string)) : M (option (list row)) :=
  fun w =>
    match Sqlite3.connect (fs w) db_file with
    | inl e => (print ("SQLite error: " ++ e) ;; ret None) w
    | inr f1 =>
        let params := match parameters with Some ps => ps | None => [] end in
        let w1 := mkWorld f1 (trace w ++ [Execute db_file query params]) in
        match Sqlite3.execute f1 db_file query params with
        | inl e => (print ("SQLite error: " ++ e) ;; ret None) w1
        | inr (rows, f2) =>
            let result :=
              if PyStr.startswith (PyStr.lower query) "select"
              then Some rows else None in
            (Ret result, mkWorld f2 (trace w1))
        end
    end.

(** [bool(result)] for a result that is [None] or a list. *)
Definition truthy {A : Type} (r : option (list A)) : bool :=
  match r with
  | Some (_ :: _) => true
  | _ => false
  end.

Definition media_file_exist (db_file path : string) : M bool :=
  let query := "SELECT * FROM hashes WHERE path=?" in
  result <- execute_query db_file query (Some [path]) ;;
  ret (truthy result).

Definition get_hashes (db_file : string) : M (option (list row)) :=
  let query := "SELECT * FROM hashes" in
  execute_query db_file query None.

Definition add_hash (db_file path generated_hash : string) : M unit :=
  let query := "INSERT INTO hashes VALUES (?, ?)" in
  execute_query db_file query (Some [path; generated_hash]) ;;
  ret tt.

Definition create_new_database (db_file : string) : M unit :=
  let query :=
    "CREATE TABLE IF NOT EXISTS hashes " ++
    "(path TEXT PRIMARY KEY, hash TEXT)" in
  execute_query db_file query None ;;
  ret tt.

End database.

(* ===================================================================== *)
(** ** [main.py] *)
(* ===================================================================== *)

Definition MEDIA_EXTENSIONS : list string := [".mp4"; ".mkv"].
Definition BLOCK_SIZE : nat := Z.to_nat 65536.
Definition DB_FILE : string := "hashmyfiles.db".

(** A file object is the bytes not yet read; [f.read(n)] returns at most
    [n] of them. *)
Definition file_read (n : nat) (f : list byte) : list byte * list byte :=
  (firstn n f, skipn n f).

Definition inspect {A : Type} (a : A) : {b : A | a = b} := exist _ a eq_refl.

(** [iter(lambda: f.read(n), b'')]: the blocks read until the first empty
    one. *)
Equations? read_blocks (n : nat) (f : list byte) : list (list byte)
  by wf (List.length f) lt :=
read_blocks n f with inspect (file_read n f) := {
  | exist _ ([], _) _ => [];
  | exist _ (b :: bs, rest) e => (b :: bs) :: read_blocks n rest }.
Proof.
  match goal with H : firstn n f = _ |- _ => rename H into Hblock end.
  destruct n as [|n]; [discriminate|].
  destruct f as [|x f]; [discriminate|].
  simpl. pose proof (length_skipn n f). lia.
Qed.

(** The [hashlib] object: the bytes fed so far.  [update] appends, as the
    library documents it, and [hexdigest] hashes what was fed. *)
Module hashlib.
Definition sha256 : list byte := [].
Definition update (h block : list byte) : list byte := (h ++ block)%list.
Definition hexdigest (h : list byte) : string := SHA256.hexdigest h.
End hashlib.

Section Program.

(** The bytes of the file SQLite keeps for a database. *)
Variable db_image : database -> list byte.

Definition os_path_isdir (p : string) : M bool :=
  fun w => (Ret (isdir (fs w) p), w).

Definition os_path_isfile (p : string) : M bool :=
  fun w => (Ret (isfile (fs w) p), w).

(** [open(path, "rb")] *)
Definition open_rb (path : string) : M (list byte) :=
  log (Open path) ;;
  fun w =>
    match find_path (roots (fs w)) path with
    | Some File =>
        (Ret (match data (fs w) path with
              | Raw bs => bs
              | Sqlite d => db_image d
              end), w)
    | Some (Dir _) => (Raise (IsADirectoryError path), w)
    | None => (Raise (FileNotFoundError path), w)
    end.

Definition find_files_with_extension (dir_path : string)
           (extensions : list string) : M (list string) :=
  fun w =>
    (Ret (flat_map
            (fun t =>
               let '(root, _, files_list) := t in
               map (path_join root)
                   (filter (fun file => PyStr.endswith_any file extensions)
                           files_list))
            (walk (fs w) dir_path)), w).

Definition generate_sha256_hash (file_path : string) : M string :=
  f <- open_rb file_path ;;
  let sha256 := fold_left hashlib.update (read_blocks BLOCK_SIZE f)
                          hashlib.sha256 in
  ret (hashlib.hexdigest sha256).

Definition generate (dir_path : string) : M unit :=
  d <- os_path_isdir dir_path ;;
  if d then
    let db_file := path_join dir_path DB_FILE in
    e <- os_path_isfile db_file ;;
    (if e then
       print (db_file ++ " exists. Will look for new files..." ++ nl)
     else
       print (db_file ++ " does not exist. Creating a new database..." ++ nl) ;;
       database.create_new_database db_file) ;;
    media_files <- find_files_with_extension dir_path MEDIA_EXTENSIONS ;;
    for_each media_files
      (fun media_file =>
         known <- database.media_file_exist db_file media_file ;;
         if negb known then
           print ("Generate hash for: " ++ media_file) ;;
           generated_hash <- generate_sha256_hash media_file ;;
           database.add_hash db_file media_file generated_hash
         else ret tt) ;;
    print "Done" ;;
    sys_exit 0
  else
    print (dir_path ++ " is not a directory") ;;
    sys_exit 1.

(** An entry of [corrupted_files]: the path, the stored hash, and the
    hash found or ["File not found"]. *)
Definition corrupted : Type := string * string * string.

Definition verify_record (db_hash : row) (corrupted_files : list corrupted)
  : M (list corrupted) :=
  let media_file := fst db_hash in
  e <- os_path_isfile media_file ;;
  if negb e then
    print (media_file ++ " [Corrupted]") ;;
    ret (corrupted_files ++ [(media_file, snd db_hash, "File not found")])%list
  else
    generated_hash <- generate_sha256_hash media_file ;;
    if String.eqb generated_hash (snd db_hash) then
      print (media_file ++ " [OK]") ;;
      ret corrupted_files
    else
      print (media_file ++ " [Corrupted]") ;;
      ret (corrupted_files ++ [(media_file, snd db_hash, generated_hash)])%list.

Definition report (corrupted_file : corrupted) : M unit :=
  print ("File: " ++ fst (fst corrupted_file)) ;;
  print ("Expected hash: " ++ snd (fst corrupted_file)) ;;
  print ("File hash: " ++ snd corrupted_file ++ nl).

Definition verify (dir_path : string) : M unit :=
  let db_file := path_join dir_path DB_FILE in
  e <- os_path_isfile db_file ;;
  (if negb e then
     print (db_file ++ " does not exist. Please generate hashes first.") ;;
     sys_exit 1
   else ret tt) ;;
  print (db_file ++ " exists. Verifying files..." ++ nl) ;;
  db_hashes <- database.get_hashes db_file ;;
  match db_hashes with
  | None => raise (TypeError "'NoneType' object is not iterable")
  | Some rows =>
      corrupted_files <- for_acc rows [] verify_record ;;
      match corrupted_files with
      | _ :: _ =>
          print (nl ++ PyStr.str_nat (List.length corrupted_files)
                    ++ " corrupted files:") ;;
          for_each corrupted_files report ;;
          sys_exit 1
      | [] =>
          print (nl ++ "No corrupted files found") ;;
          sys_exit 0
      end
  end.

(** The script body, on [sys.argv[1:]].  No interrupt arrives in this
    model, so the handler of [KeyboardInterrupt] never runs. *)
Definition main (args : list string) : M unit :=
  if (List.length args <? 2)%nat then
    print "Not enough arguments" ;;
    sys_exit 1
  else
    let option := nth 0 args "" in
    let directory := nth 1 args "" in
    if String.eqb option "-g" then generate directory
    else if String.eqb option "-v" then verify directory
    else
      print "Invalid option" ;;
      sys_exit 1.

End Program.

(* ===================================================================== *)
(** ** Running the monad *)
(* ===================================================================== *)

Lemma bind_ret {A B : Type} (c : M A) (k : A -> M B) (w w' : world) (a : A) :
  c w = (Ret a, w') -> bind c k w = k a w'.
Proof. intros H. unfold bind. rewrite H. reflexivity. Qed.

Lemma bind_raise {A B : Type} (c : M A) (k : A -> M B) (w w' : world) (e : exn) :
  c w = (Raise e, w') -> bind c k w = (Raise e, w').
Proof. intros H. unfold bind. rewrite H. reflexivity. Qed.

(** The world after more events were logged. *)
Definition logged (w : world) (es : list event) : world :=
  mkWorld (fs w) (trace w ++ es).

Lemma print_run (s : string) (w : world) :
  print s w = (Ret tt, logged w [Print s]).
Proof. reflexivity. Qed.

(* ===================================================================== *)
(** ** Usage errors and dispatch *)
(* ===================================================================== *)

Section Usage.

Variable db_image : database -> list byte.

Lemma generate_elsewhere (dir_path : string) (w : world) :
  isdir (fs w) dir_path = false ->
  generate db_image dir_path w
  = (Raise (SystemExit 1),
     logged w [Print (dir_path ++ " is not a directory")]).
Proof.
  intros Hd. unfold generate, bind, os_path_isdir. rewrite Hd. reflexivity.
Qed.

Lemma verify_nothing (dir_path : string) (w : world) :
  isfile (fs w) (path_join dir_path DB_FILE) = false ->
  verify db_image dir_path w
  = (Raise (SystemExit 1),
     logged w [Print (path_join dir_path DB_FILE
                        ++ " does not exist. Please generate hashes first.")]).
Proof.
  intros He. unfold verify, bind, os_path_isfile. rewrite He. reflexivity.
Qed.

(** C7.  When [dir_path] is not a directory, [generate] prints that it is
    not, and exits with status 1: the file system is the one it found (no
    store file is created), and the trace grows by that one line only (no
    file is opened, no statement is executed). *)
Theorem generate_not_a_directory (dir_path : string) (w : world) :
  isdir (fs w) dir_path = false ->
  generate db_image dir_path w
  = (Raise (SystemExit 1),
     logged w [Print (dir_path ++ " is not a directory")]).
Proof.
  intros Hd. rewrite (generate_elsewhere _ _ Hd).
  unfold logged. reflexivity.
Qed.

(** C8.  When the store file of [dir_path] does not exist, [verify]
    prints that the operator has to generate hashes first and exits with
    status 1; nothing is loaded, opened or hashed, and the file system is
    left as it was. *)
Theorem verify_without_store (dir_path : string) (w : world) :
  isfile (fs w) (path_join dir_path DB_FILE) = false ->
  verify db_image dir_path w
  = (Raise (SystemExit 1),
     logged w [Print (path_join dir_path DB_FILE
                        ++ " does not exist. Please generate hashes first.")]).
Proof.
  intros He. rewrite (verify_nothing _ _ He).
  unfold logged. reflexivity.
Qed.

(** What the command line asks for. *)
Inductive command : Type :=
| Generate (directory : string)
| Verify (directory : string)
| UsageError (message : string).

Definition parse_args (args : list string) : command :=
  match args with
  | option :: directory :: _ =>
      if String.eqb option "-g" then Generate directory
      else if String.eqb option "-v" then Verify directory
      else UsageError "Invalid option"
  | _ => UsageError "Not enough arguments"
  end.

(** C9.  With fewer than two arguments, or a first argument that is
    neither [-g] nor [-v], the script prints an error and exits with
    status 1, and does nothing else; [-g] runs [generate] and [-v] runs
    [verify], on the second argument. *)
Theorem main_dispatch (args : list string) (w : world) :
  main db_image args w
  = match parse_args args with
    | Generate directory => generate db_image directory w
    | Verify directory => verify db_image directory w
    | UsageError message => (Raise (SystemExit 1), logged w [Print message])
    end.
Proof.
  unfold main, parse_args.
  destruct args as [|option [|directory rest]]; try reflexivity.
  simpl. destruct (String.eqb option "-g"); [reflexivity|].
  destruct (String.eqb option "-v"); reflexivity.
Qed.

End Usage.

(* ===================================================================== *)
(** ** The streamed hash *)
(* ===================================================================== *)

(** The loop of [iter], one turn unfolded. *)
Lemma read_blocks_step (n : nat) (f : list byte) :
  read_blocks n f
  = match firstn n f with
    | [] => []
    | b :: bs => (b :: bs) :: read_blocks n (skipn n f)
    end.
Proof.
  funelim (read_blocks n f).
  - match goal with H : firstn n f = [] |- _ => rewrite H end. reflexivity.
  - match goal with H : firstn n f = _ :: _ |- _ => rewrite H end. reflexivity.
Qed.

Lemma read_blocks_concat (n : nat) (f : list byte) :
  (0 < n)%nat -> List.concat (read_blocks n f) = f.
Proof.
  intros Hn. remember (List.length f) as k eqn:Hk.
  revert f Hk. induction k as [k IH] using lt_wf_ind. intros f Hk.
  rewrite read_blocks_step.
  destruct (firstn n f) as [|b bs] eqn:Hb.
  - destruct f as [|x f]; [reflexivity|].
    destruct n; [lia|discriminate].
  - rewrite <- Hb. simpl List.concat.
    rewrite (IH (List.length (skipn n f))) with (f := skipn n f).
    + apply firstn_skipn.
    + subst k. rewrite length_skipn.
      destruct f; [destruct n; discriminate|cbn [List.length]; lia].
    + reflexivity.
Qed.

(** No block is longer than the block size, and none is empty. *)
Lemma read_blocks_bounded (n : nat) (f : list byte) :
  Forall (fun b => (0 < List.length b <= n)%nat) (read_blocks n f).
Proof.
  remember (List.length f) as k eqn:Hk.
  revert f Hk. induction k as [k IH] using lt_wf_ind. intros f Hk.
  rewrite read_blocks_step.
  destruct (firstn n f) as [|b bs] eqn:Hb; constructor.
  - rewrite <- Hb. rewrite length_firstn. split; [|lia].
    rewrite <- length_firstn, Hb. simpl. lia.
  - apply (IH (List.length (skipn n f))); [|reflexivity].
    subst k. rewrite length_skipn.
    destruct n; [discriminate|]. destruct f; [discriminate|cbn [List.length]; lia].
Qed.

Lemma fold_update (blocks : list (list byte)) (h : list byte) :
  fold_left hashlib.update blocks h = (h ++ List.concat blocks)%list.
Proof.
  revert h. induction blocks as [|b blocks IH]; intros h; simpl.
  - now rewrite app_nil_r.
  - rewrite IH. unfold hashlib.update. now rewrite app_assoc.
Qed.

Lemma BLOCK_SIZE_pos : (0 < BLOCK_SIZE)%nat.
Proof. unfold BLOCK_SIZE. lia. Qed.

Section Hashing.

Variable db_image : database -> list byte.

(** The bytes [open(path, "rb")] gives to read. *)
Definition file_bytes (f : filesystem) (path : string) : list byte :=
  match data f path with
  | Raw bs => bs
  | Sqlite d => db_image d
  end.

Lemma open_rb_file (path : string) (w : world) :
  isfile (fs w) path = true ->
  open_rb db_image path w
  = (Ret (file_bytes (fs w) path), logged w [Open path]).
Proof.
  unfold isfile, open_rb, bind, log, logged, file_bytes. simpl.
  destruct (find_path (roots (fs w)) path) as [[|es]|]; try discriminate.
  reflexivity.
Qed.

Lemma generate_sha256_hash_file (path : string) (w : world) :
  isfile (fs w) path = true ->
  generate_sha256_hash db_image path w
  = (Ret (SHA256.hexdigest (file_bytes (fs w) path)), logged w [Open path]).
Proof.
  intros Hf. unfold generate_sha256_hash.
  rewrite (bind_ret _ _ _ (open_rb_file _ _ Hf)).
  unfold ret, hashlib.hexdigest, hashlib.sha256.
  rewrite fold_update, read_blocks_concat by apply BLOCK_SIZE_pos.
  reflexivity.
Qed.

(** C5.  For a regular file, the hash of the loop that reads blocks of
    [BLOCK_SIZE] = 65536 bytes and feeds them to the hash object is the
    SHA-256 hex digest of the whole content; so two runs that find the
    same bytes at the path, one at generate time and one at verify time,
    compute the same hash. *)
Theorem streamed_hash_is_whole_file_hash (path : string) (w : world) :
  isfile (fs w) path = true ->
  BLOCK_SIZE = Z.to_nat (64 * 1024) /\
  fst (generate_sha256_hash db_image path w)
  = Ret (hashlib.hexdigest (file_bytes (fs w) path)) /\
  forall w' : world,
    isfile (fs w') path = true ->
    file_bytes (fs w') path = file_bytes (fs w) path ->
    fst (generate_sha256_hash db_image path w')
    = fst (generate_sha256_hash db_image path w).
Proof.
  intros Hf. split; [reflexivity|]. split.
  - now rewrite generate_sha256_hash_file.
  - intros w' Hf' Hb. rewrite !generate_sha256_hash_file by assumption.
    simpl. now rewrite Hb.
Qed.

End Hashing.

(* ===================================================================== *)
(** ** The record store *)
(* ===================================================================== *)

Lemma logged_logged (w : world) (a b : list event) :
  logged (logged w a) b = logged w (a ++ b).
Proof. unfold logged. simpl. now rewrite app_assoc. Qed.

Lemma logged_nil (w : world) : logged w [] = w.
Proof. destruct w. unfold logged. simpl. now rewrite app_nil_r. Qed.

Lemma stdout_logged (w : world) (es : list event) :
  stdout (logged w es) = (stdout w ++ printed es)%list.
Proof. unfold stdout, logged. simpl. apply flat_map_app. Qed.

Lemma executed_logged (w : world) (es : list event) :
  executed (logged w es) = (executed w ++ statements es)%list.
Proof. unfold executed, logged. simpl. apply flat_map_app. Qed.

Lemma opened_logged (w : world) (es : list event) :
  opened (logged w es) = (opened w ++ opens es)%list.
Proof. unfold opened, logged. simpl. apply flat_map_app. Qed.

Lemma opens_app (a b : list event) : opens (a ++ b) = (opens a ++ opens b)%list.
Proof. apply flat_map_app. Qed.

Lemma statements_app (a b : list event) :
  statements (a ++ b) = (statements a ++ statements b)%list.
Proof. apply flat_map_app. Qed.

Lemma printed_app (a b : list event) :
  printed (a ++ b) = (printed a ++ printed b)%list.
Proof. apply flat_map_app. Qed.

Lemma prints_not_opened (es : list event) :
  Forall (fun e => exists s, e = Print s) es -> opens es = [].
Proof. induction 1 as [|e es [s ->] _ IH]; simpl; auto. Qed.

Lemma prints_not_executed (es : list event) :
  Forall (fun e => exists s, e = Print s) es -> statements es = [].
Proof. induction 1 as [|e es [s ->] _ IH]; simpl; auto. Qed.

(** The record store of a directory: the rows of [hashes] in the store
    file, when the file is there and holds the table. *)
Definition store_table (f : filesystem) (db_file : string) : option table :=
  if isfile f db_file then
    match data f db_file with
    | Sqlite (Some t) => Some t
    | _ => None
    end
  else None.

Definition params_of (parameters : option (list string)) : list string :=
  match parameters with Some ps => ps | None => [] end.

(** The error of the storage layer for a statement, when it fails: at
    [connect], or at [execute]. *)
Definition storage_error (f : filesystem) (db_file query : string)
           (params : list string) : option string :=
  match Sqlite3.connect f db_file with
  | inl e => Some e
  | inr f1 =>
      match Sqlite3.execute f1 db_file query params with
      | inl e => Some e
      | inr _ => None
      end
  end.

Lemma connect_existing (f : filesystem) (db_file : string) :
  isfile f db_file = true -> Sqlite3.connect f db_file = inr f.
Proof.
  unfold isfile, Sqlite3.connect.
  destruct (find_path (roots f) db_file) as [[|es]|]; now try discriminate.
Qed.

Lemma execute_query_returns (db_file query : string)
      (parameters : option (list string)) (w : world) :
  exists r w', database.execute_query db_file query parameters w = (Ret r, w').
Proof.
  unfold database.execute_query.
  destruct (Sqlite3.connect (fs w) db_file) as [e|f1]; [now eexists; eexists|].
  destruct (Sqlite3.execute f1 db_file query _) as [e|[rows f2]];
    now eexists; eexists.
Qed.

Lemma execute_query_error (db_file query : string)
      (parameters : option (list string)) (w : world) (e : string) :
  storage_error (fs w) db_file query (params_of parameters) = Some e ->
  exists w',
    database.execute_query db_file query parameters w = (Ret None, w') /\
    stdout w' = (stdout w ++ [("SQLite error: " ++ e)%string])%list.
Proof.
  unfold storage_error, database.execute_query, params_of.
  destruct (Sqlite3.connect (fs w) db_file) as [e1|f1].
  - intros [= <-]. eexists. split; [reflexivity|].
    unfold stdout. simpl. now rewrite printed_app.
  - destruct (Sqlite3.execute f1 db_file query _) as [e1|[rows f2]];
      [|discriminate].
    intros [= <-]. eexists. split; [reflexivity|].
    unfold stdout. simpl. rewrite !printed_app. simpl.
    now rewrite app_nil_r.
Qed.

(** A [SELECT] on a store that holds the table: the rows, and nothing
    written. *)
Lemma select_path_run (db_file path : string) (w : world) (t : table) :
  store_table (fs w) db_file = Some t ->
  database.execute_query db_file Sqlite3.q_select_path (Some [path]) w
  = (Ret (Some (filter (fun r => String.eqb (fst r) path) t)),
     logged w [Execute db_file Sqlite3.q_select_path [path]]).
Proof.
  unfold store_table. destruct (isfile (fs w) db_file) eqn:Hf; [|discriminate].
  intros Ht. unfold database.execute_query.
  rewrite (connect_existing _ _ Hf). unfold Sqlite3.execute.
  destruct (data (fs w) db_file) as [bs|[t'|]]; try discriminate.
  injection Ht as ->. reflexivity.
Qed.

Lemma select_all_run (db_file : string) (w : world) (t : table) :
  store_table (fs w) db_file = Some t ->
  database.get_hashes db_file w
  = (Ret (Some t), logged w [Execute db_file Sqlite3.q_select_all []]).
Proof.
  unfold store_table. destruct (isfile (fs w) db_file) eqn:Hf; [|discriminate].
  intros Ht. unfold database.get_hashes, database.execute_query.
  rewrite (connect_existing _ _ Hf). unfold Sqlite3.execute.
  destruct (data (fs w) db_file) as [bs|[t'|]]; try discriminate.
  injection Ht as ->. reflexivity.
Qed.

Lemma truthy_filter_has_key (t : table) (p : string) :
  database.truthy (Some (filter (fun r => String.eqb (fst r) p) t))
  = Sqlite3.has_key t p.
Proof.
  induction t as [|r t IH]; simpl; [reflexivity|].
  destruct (String.eqb (fst r) p); [reflexivity|exact IH].
Qed.

Lemma media_file_exist_run (db_file path : string) (w : world) (t : table) :
  store_table (fs w) db_file = Some t ->
  database.media_file_exist db_file path w
  = (Ret (Sqlite3.has_key t path),
     logged w [Execute db_file Sqlite3.q_select_path [path]]).
Proof.
  intros Ht. unfold database.media_file_exist.
  change "SELECT * FROM hashes WHERE path=?" with Sqlite3.q_select_path.
  rewrite (bind_ret _ _ _ (select_path_run _ _ _ Ht)).
  unfold ret. now rewrite truthy_filter_has_key.
Qed.

(** C6.  None of the four operations of the store raises.  When the
    storage layer fails under one of them, at [connect] or at the
    statement, the error is caught in [execute_query] and printed as
    [SQLite error: ...], and the caller gets [False] from the existence
    check, [None] from the listing, and nothing from the insert and the
    creation, as it does when they succeed.  The existence check answers
    [False] as well when the table has no row for the path, so its caller
    cannot tell the two apart.  The caller of the listing can: on a store
    that holds the table it gets the list of the rows, empty when there
    are none, and never [None]. *)
Theorem storage_failures_are_swallowed (db_file path h : string) (w : world) :
  (exists b w', database.media_file_exist db_file path w = (Ret b, w')) /\
  (exists r w', database.get_hashes db_file w = (Ret r, w')) /\
  (exists w', database.add_hash db_file path h w = (Ret tt, w')) /\
  (exists w', database.create_new_database db_file w = (Ret tt, w')) /\
  (forall e : string,
     storage_error (fs w) db_file Sqlite3.q_select_path [path] = Some e ->
     exists w',
       database.media_file_exist db_file path w = (Ret false, w') /\
       stdout w' = (stdout w ++ [("SQLite error: " ++ e)%string])%list) /\
  (forall e : string,
     storage_error (fs w) db_file Sqlite3.q_select_all [] = Some e ->
     exists w',
       database.get_hashes db_file w = (Ret None, w') /\
       stdout w' = (stdout w ++ [("SQLite error: " ++ e)%string])%list) /\
  (forall e : string,
     storage_error (fs w) db_file Sqlite3.q_insert [path; h] = Some e ->
     exists w',
       database.add_hash db_file path h w = (Ret tt, w') /\
       stdout w' = (stdout w ++ [("SQLite error: " ++ e)%string])%list) /\
  (forall e : string,
     storage_error (fs w) db_file Sqlite3.q_create [] = Some e ->
     exists w',
       database.create_new_database db_file w = (Ret tt, w') /\
       stdout w' = (stdout w ++ [("SQLite error: " ++ e)%string])%list) /\
  (forall t : table,
     store_table (fs w) db_file = Some t ->
     Sqlite3.has_key t path = false ->
     fst (database.media_file_exist db_file path w) = Ret false) /\
  (forall t : table,
     store_table (fs w) db_file = Some t ->
     fst (database.get_hashes db_file w) = Ret (Some t)).
Proof.
  assert (Hret : forall q ps, exists r w',
             database.execute_query db_file q ps w = (Ret r, w'))
    by (intros q ps; apply execute_query_returns).
  assert (Herr : forall q ps e,
             storage_error (fs w) db_file q (params_of ps) = Some e ->
             exists w',
               database.execute_query db_file q ps w = (Ret None, w') /\
               stdout w' = (stdout w ++ [("SQLite error: " ++ e)%string])%list)
    by (intros q ps e; apply execute_query_error).
  unfold database.media_file_exist, database.get_hashes, database.add_hash,
    database.create_new_database.
  change ("CREATE TABLE IF NOT EXISTS hashes "
            ++ "(path TEXT PRIMARY KEY, hash TEXT)")%string
    with Sqlite3.q_create.
  change "SELECT * FROM hashes WHERE path=?" with Sqlite3.q_select_path.
  change "SELECT * FROM hashes" with Sqlite3.q_select_all.
  change "INSERT INTO hashes VALUES (?, ?)" with Sqlite3.q_insert.
  split; [|split; [|split; [|split; [|split; [|split; [|split; [|split;
    [|split]]]]]]]].
  - destruct (Hret Sqlite3.q_select_path (Some [path])) as (r & w' & Hq).
    rewrite (bind_ret _ _ _ Hq). now eexists; eexists.
  - apply Hret.
  - destruct (Hret Sqlite3.q_insert (Some [path; h])) as (r & w' & Hq).
    rewrite (bind_ret _ _ _ Hq). now eexists.
  - destruct (Hret Sqlite3.q_create None) as (r & w' & Hq).
    rewrite (bind_ret _ _ _ Hq). now eexists.
  - intros e He.
    destruct (Herr Sqlite3.q_select_path (Some [path]) e He) as (w' & Hq & Hp).
    rewrite (bind_ret _ _ _ Hq). now exists w'.
  - intros e He. exact (Herr Sqlite3.q_select_all None e He).
  - intros e He.
    destruct (Herr Sqlite3.q_insert (Some [path; h]) e He) as (w' & Hq & Hp).
    rewrite (bind_ret _ _ _ Hq). now exists w'.
  - intros e He.
    destruct (Herr Sqlite3.q_create None e He) as (w' & Hq & Hp).
    rewrite (bind_ret _ _ _ Hq). now exists w'.
  - intros t Ht Hk.
    pose proof (media_file_exist_run _ path _ Ht) as Hm.
    unfold database.media_file_exist in Hm.
    change "SELECT * FROM hashes WHERE path=?" with Sqlite3.q_select_path in Hm.
    rewrite Hm. simpl. now rewrite Hk.
  - intros t Ht.
    pose proof (select_all_run _ _ Ht) as Hm.
    unfold database.get_hashes in Hm.
    change "SELECT * FROM hashes" with Sqlite3.q_select_all in Hm.
    now rewrite Hm.
Qed.

(* ===================================================================== *)
(** ** Verification *)
(* ===================================================================== *)

Section Verification.

Variable db_image : database -> list byte.

(** What the specification says of one stored record. *)
Inductive verdict : Type :=
| Intact
| NotFound
| Mismatch (actual : string).

Definition classify (f : filesystem) (r : row) : verdict :=
  if isfile f (fst r) then
    let actual := hashlib.hexdigest (file_bytes db_image f (fst r)) in
    if String.eqb actual (snd r) then Intact else Mismatch actual
  else NotFound.

Definition is_corrupted (v : verdict) : bool :=
  match v with Intact => false | _ => true end.

(** The entry [verify] keeps for a record, if any. *)
Definition corrupted_entry (r : row) (v : verdict) : list corrupted :=
  match v with
  | Intact => []
  | NotFound => [(fst r, snd r, "File not found")]
  | Mismatch actual => [(fst r, snd r, actual)]
  end.

(** What [verify] is seen to do for a record. *)
Definition record_events (r : row) (v : verdict) : list event :=
  match v with
  | Intact => [Open (fst r); Print (fst r ++ " [OK]")]
  | NotFound => [Print (fst r ++ " [Corrupted]")]
  | Mismatch _ => [Open (fst r); Print (fst r ++ " [Corrupted]")]
  end.

Definition report_events (c : corrupted) : list event :=
  [Print ("File: " ++ fst (fst c));
   Print ("Expected hash: " ++ snd (fst c));
   Print ("File hash: " ++ snd c ++ nl)].

Definition summary_events (cs : list corrupted) : list event :=
  match cs with
  | [] => [Print (nl ++ "No corrupted files found")]
  | _ :: _ =>
      Print (nl ++ PyStr.str_nat (List.length cs) ++ " corrupted files:")
        :: flat_map report_events cs
  end.

Lemma verify_record_run (r : row) (acc : list corrupted) (w : world) :
  verify_record db_image r acc w
  = (Ret (acc ++ corrupted_entry r (classify (fs w) r))%list,
     logged w (record_events r (classify (fs w) r))).
Proof.
  unfold verify_record, classify, bind at 1, os_path_isfile.
  destruct (isfile (fs w) (fst r)) eqn:Hf; cbn [negb].
  - rewrite (bind_ret _ _ _ (generate_sha256_hash_file db_image _ _ Hf)).
    unfold hashlib.hexdigest.
    destruct (String.eqb _ (snd r)); simpl.
    + unfold bind, print, log, ret, logged. simpl.
      now rewrite app_nil_r, <- app_assoc.
    + unfold bind, print, log, ret, logged. simpl.
      now rewrite <- app_assoc.
  - reflexivity.
Qed.

Lemma verify_loop_run (rows : table) (acc : list corrupted) (w : world) :
  for_acc rows acc (verify_record db_image) w
  = (Ret (acc ++ flat_map (fun r => corrupted_entry r (classify (fs w) r)) rows)%list,
     logged w (flat_map (fun r => record_events r (classify (fs w) r)) rows)).
Proof.
  revert acc w. induction rows as [|r rows IH]; intros acc w; simpl.
  - unfold ret. now rewrite app_nil_r, logged_nil.
  - rewrite (bind_ret _ _ _ (verify_record_run r acc w)).
    rewrite IH. simpl fs. now rewrite logged_logged, <- app_assoc.
Qed.

Lemma report_loop_run (cs : list corrupted) (w : world) :
  for_each cs (report) w = (Ret tt, logged w (flat_map report_events cs)).
Proof.
  revert w. induction cs as [|c cs IH]; intros w; simpl.
  - unfold ret. now rewrite logged_nil.
  - unfold bind at 1.
    replace (report c w) with (Ret tt, logged w (report_events c)).
    + rewrite IH. now rewrite logged_logged.
    + unfold report, bind, print, log, logged, report_events. simpl.
      now rewrite <- !app_assoc.
Qed.

Definition verify_header (db_file : string) : list event :=
  [Print (db_file ++ " exists. Verifying files..." ++ nl);
   Execute db_file Sqlite3.q_select_all []].

(** A whole run of [verify] over a store that holds the table. *)
Lemma verify_run (dir_path : string) (w : world) (rows : table) :
  store_table (fs w) (path_join dir_path DB_FILE) = Some rows ->
  let cs := flat_map (fun r => corrupted_entry r (classify (fs w) r)) rows in
  verify db_image dir_path w
  = (Raise (SystemExit (match cs with [] => 0 | _ :: _ => 1 end)),
     logged w (verify_header (path_join dir_path DB_FILE)
                 ++ flat_map (fun r => record_events r (classify (fs w) r)) rows
                 ++ summary_events cs)).
Proof.
  intros Ht cs. unfold verify.
  set (db_file := path_join dir_path DB_FILE) in *.
  assert (Hf : isfile (fs w) db_file = true).
  { unfold store_table in Ht. now destruct (isfile (fs w) db_file). }
  unfold bind at 1, os_path_isfile. rewrite Hf. cbn [negb].
  unfold bind at 1, ret at 1. unfold bind at 1. rewrite print_run.
  rewrite (bind_ret _ _ _ (select_all_run db_file (logged w _) Ht)).
  rewrite (bind_ret _ _ _ (verify_loop_run rows [] _)).
  cbn [fs logged app]. fold cs. clearbody cs.
  destruct cs as [|c cs'].
  - unfold bind, print, log, sys_exit, raise, logged, verify_header. simpl.
    now rewrite <- !app_assoc.
  - unfold bind at 1. rewrite print_run. unfold bind at 1.
    rewrite report_loop_run. unfold sys_exit, raise, logged, verify_header.
    simpl. f_equal. f_equal. now rewrite <- !app_assoc.
Qed.

(** A store file without the table, or one that is no database: the
    listing fails, [get_hashes] returns [None], and the loop over it
    raises. *)
Lemma verify_unreadable_store (dir_path : string) (w : world) :
  isfile (fs w) (path_join dir_path DB_FILE) = true ->
  store_table (fs w) (path_join dir_path DB_FILE) = None ->
  exists e : string,
    verify db_image dir_path w
    = (Raise (TypeError "'NoneType' object is not iterable"),
       logged w (verify_header (path_join dir_path DB_FILE)
                   ++ [Print ("SQLite error: " ++ e)])).
Proof.
  intros Hf Ht. unfold verify.
  set (db_file := path_join dir_path DB_FILE) in *.
  unfold bind at 1, os_path_isfile. rewrite Hf. cbn [negb].
  unfold bind at 1, ret at 1. unfold bind at 1. rewrite print_run.
  unfold database.get_hashes, database.execute_query, bind.
  cbn [fs logged]. rewrite (connect_existing _ _ Hf).
  unfold store_table in Ht. rewrite Hf in Ht.
  unfold Sqlite3.execute, verify_header, logged.
  destruct (data (fs w) db_file) as [[|b bs]|[t|]];
    try discriminate; simpl; eexists; rewrite <- !app_assoc; reflexivity.
Qed.

Lemma corrupted_count (f : filesystem) (rows : table) :
  List.length (flat_map (fun r => corrupted_entry r (classify f r)) rows)
  = List.length (filter (fun r => is_corrupted (classify f r)) rows).
Proof.
  induction rows as [|r rows IH]; simpl; [reflexivity|].
  rewrite length_app, IH. now destruct (classify f r).
Qed.

Lemma opens_record_events (f : filesystem) (rows : table) :
  opens (flat_map (fun r => record_events r (classify f r)) rows)
  = map fst (filter (fun r => isfile f (fst r)) rows).
Proof.
  induction rows as [|r rows IH]; simpl; [reflexivity|].
  rewrite opens_app, IH. unfold classify.
  destruct (isfile f (fst r)); [|reflexivity].
  now destruct (String.eqb _ (snd r)).
Qed.

Lemma statements_record_events (f : filesystem) (rows : table) :
  statements (flat_map (fun r => record_events r (classify f r)) rows) = [].
Proof.
  induction rows as [|r rows IH]; simpl; [reflexivity|].
  rewrite statements_app, IH. now destruct (classify f r).
Qed.

Lemma summary_events_are_prints (cs : list corrupted) :
  Forall (fun e => exists s, e = Print s) (summary_events cs).
Proof.
  assert (H : forall l, Forall (fun e => exists s, e = Print s)
                               (flat_map report_events l)).
  { induction l as [|c l IH]; simpl; [constructor|].
    repeat (constructor; [now eexists|]). exact IH. }
  destruct cs as [|c cs]; unfold summary_events.
  - constructor; [now eexists|constructor].
  - constructor; [now eexists|apply (H (c :: cs))].
Qed.

(** C1.  Over a directory whose record store exists, [verify] exits with
    status 0 when no stored record is corrupted (its file missing, or its
    hash changed), and with status 1 when at least one is. *)
Theorem verify_exit_code (dir_path : string) (w : world) (rows : table) :
  store_table (fs w) (path_join dir_path DB_FILE) = Some rows ->
  let n := List.length
             (filter (fun r => is_corrupted (classify (fs w) r)) rows) in
  (n = 0%nat -> exit_status (fst (verify db_image dir_path w)) = 0%Z) /\
  ((1 <= n)%nat -> exit_status (fst (verify db_image dir_path w)) = 1%Z).
Proof.
  intros Ht n. rewrite (verify_run _ _ Ht). subst n.
  rewrite <- corrupted_count. cbn [fst]. unfold exit_status.
  destruct (flat_map _ rows); simpl; split; intros; (reflexivity || lia).
Qed.

(** C2.  [verify] goes through the stored records in order.  A record
    whose path is no regular file is kept as corrupted with the reason
    [File not found], and its file is not opened; any other record has
    its file opened and hashed, and is kept as corrupted with the stored
    and the recomputed hash when they differ, or reported [OK] when they
    are equal.  Files are opened for the records that have one, and for
    no other. *)
Theorem verify_classifies_each_record
        (dir_path : string) (w : world) (rows : table) :
  store_table (fs w) (path_join dir_path DB_FILE) = Some rows ->
  let kept := flat_map (fun r => corrupted_entry r (classify (fs w) r)) rows in
  snd (verify db_image dir_path w)
  = logged w (verify_header (path_join dir_path DB_FILE)
                ++ flat_map (fun r => record_events r (classify (fs w) r)) rows
                ++ summary_events kept) /\
  opened (snd (verify db_image dir_path w))
  = (opened w ++ map fst (filter (fun r => isfile (fs w) (fst r)) rows))%list.
Proof.
  intros Ht kept. rewrite (verify_run _ _ Ht). cbn [snd]. subst kept.
  split; [reflexivity|].
  rewrite opened_logged, !opens_app, opens_record_events.
  rewrite (prints_not_opened (summary_events_are_prints _)).
  now rewrite app_nil_r.
Qed.

(** C10.  [verify] leaves the file system, and with it the record store,
    exactly as it found it, whatever it finds corrupted; the only
    statement it may issue is the [SELECT] that lists the table. *)
Theorem verify_does_not_write (dir_path : string) (w : world) :
  fs (snd (verify db_image dir_path w)) = fs w /\
  store_table (fs (snd (verify db_image dir_path w)))
              (path_join dir_path DB_FILE)
  = store_table (fs w) (path_join dir_path DB_FILE) /\
  exists qs : list string,
    executed (snd (verify db_image dir_path w)) = (executed w ++ qs)%list /\
    Forall (fun q => PyStr.startswith (PyStr.lower q) "select" = true) qs.
Proof.
  set (db_file := path_join dir_path DB_FILE).
  assert (H : fs (snd (verify db_image dir_path w)) = fs w /\
              exists qs : list string,
                executed (snd (verify db_image dir_path w))
                = (executed w ++ qs)%list /\
                Forall (fun q => PyStr.startswith (PyStr.lower q) "select"
                                 = true) qs).
  { destruct (isfile (fs w) db_file) eqn:Hf.
    - destruct (store_table (fs w) db_file) as [rows|] eqn:Ht.
      + rewrite (verify_run _ _ Ht). cbn [snd]. split; [reflexivity|].
        exists [Sqlite3.q_select_all]. split; [|now repeat constructor].
        rewrite executed_logged, !statements_app, statements_record_events.
        now rewrite (prints_not_executed (summary_events_are_prints _)).
      + destruct (verify_unreadable_store dir_path w Hf Ht) as [e ->].
        cbn [snd]. split; [reflexivity|].
        exists [Sqlite3.q_select_all]. split; [|now repeat constructor].
        rewrite executed_logged, statements_app. simpl.
        reflexivity.
    - rewrite (verify_nothing db_image _ _ Hf). cbn [snd].
      split; [reflexivity|]. exists []. split; [|constructor].
      rewrite executed_logged. reflexivity. }
  destruct H as [H1 H2]. split; [exact H1|]. split; [now rewrite H1|exact H2].
Qed.

End Verification.

(* ===================================================================== *)
(** ** Suffixes and joined paths *)
(* ===================================================================== *)

Lemma append_assoc (a b c : string) : (a ++ b) ++ c = a ++ (b ++ c).
Proof. induction a as [|x a IH]; simpl; [reflexivity|now rewrite IH]. Qed.

Lemma append_nil_r (a : string) : a ++ "" = a.
Proof. induction a as [|x a IH]; simpl; [reflexivity|now rewrite IH]. Qed.

Lemma length_append (a b : string) :
  String.length (a ++ b) = (String.length a + String.length b)%nat.
Proof. induction a as [|x a IH]; simpl; [reflexivity|now rewrite IH]. Qed.

Lemma substring_all (s : string) : String.substring 0 (String.length s) s = s.
Proof. induction s as [|x s IH]; simpl; [reflexivity|now rewrite IH]. Qed.

Lemma substring_skip (q p : string) :
  String.substring (String.length q) (String.length p) (q ++ p) = p.
Proof. induction q as [|x q IH]; simpl; [apply substring_all|exact IH]. Qed.

Lemma substring_split (s : string) (k : nat) :
  (k <= String.length s)%nat ->
  s = String.substring 0 k s ++ String.substring k (String.length s - k) s.
Proof.
  revert k. induction s as [|x s IH]; intros k Hk.
  - destruct k; [reflexivity|simpl in Hk; lia].
  - destruct k as [|k].
    + simpl. now rewrite substring_all.
    + simpl in Hk. simpl. f_equal. apply IH. lia.
Qed.

(** [endswith] is the raw suffix test: it holds exactly of the strings
    that are some stem followed by the suffix, character for character. *)
Lemma endswith_iff (s p : string) :
  PyStr.endswith s p = true <-> exists q : string, s = q ++ p.
Proof.
  unfold PyStr.endswith. split.
  - intros H. apply andb_prop in H as [Hle He].
    apply Nat.leb_le in Hle. apply String.eqb_eq in He.
    exists (String.substring 0 (String.length s - String.length p) s).
    pose proof (@substring_split s (String.length s - String.length p)) as Hs.
    replace (String.length s - (String.length s - String.length p))%nat
      with (String.length p) in Hs by lia.
    rewrite He in Hs. apply Hs. lia.
  - intros [q ->]. rewrite length_append. apply andb_true_intro. split.
    + apply Nat.leb_le. lia.
    + replace (String.length q + String.length p - String.length p)%nat
        with (String.length q) by lia.
      rewrite substring_skip. apply String.eqb_refl.
Qed.

(** [os.path.join] ends with its second argument. *)
Lemma path_join_suffix (a b : string) : exists q : string, path_join a b = q ++ b.
Proof.
  unfold path_join. destruct (PyStr.startswith b "/").
  - now exists "".
  - destruct (String.eqb a "" || PyStr.endswith a "/").
    + now exists a.
    + exists (a ++ "/"). now rewrite append_assoc.
Qed.

Fixpoint last_char (s : string) : option ascii :=
  match s with
  | EmptyString => None
  | String c EmptyString => Some c
  | String _ r => last_char r
  end.

Lemma last_char_append (q p : string) :
  p <> "" -> last_char (q ++ p) = last_char p.
Proof.
  intros Hp. induction q as [|x q IH]; [reflexivity|].
  simpl. destruct (q ++ p) eqn:E; [|exact IH].
  destruct q; simpl in E; [contradiction|discriminate].
Qed.

Definition is_media (name : string) : bool :=
  PyStr.endswith_any name MEDIA_EXTENSIONS.

Lemma is_media_iff (name : string) :
  is_media name = true <->
  exists stem : string, name = stem ++ ".mp4" \/ name = stem ++ ".mkv".
Proof.
  unfold is_media, PyStr.endswith_any, MEDIA_EXTENSIONS. simpl.
  rewrite orb_false_r, orb_true_iff, !endswith_iff. split.
  - intros [[q H]|[q H]]; exists q; auto.
  - intros [q [H|H]]; [left|right]; now exists q.
Qed.

(** A joined path whose last component is a media name is no store file:
    the one ends in [4] or [v], the other in [b]. *)
Lemma media_path_is_not_db_file (root name dir_path : string) :
  is_media name = true -> path_join root name <> path_join dir_path DB_FILE.
Proof.
  intros Hm Heq. apply is_media_iff in Hm as [stem Hm].
  destruct (path_join_suffix root name) as [q Hq].
  destruct (path_join_suffix dir_path DB_FILE) as [q' Hq'].
  assert (Hl : last_char (path_join root name) = Some "b"%char).
  { rewrite Heq, Hq'. now rewrite last_char_append. }
  rewrite Hq in Hl. destruct Hm as [-> | ->];
    rewrite <- append_assoc, last_char_append in Hl; discriminate.
Qed.

(* ===================================================================== *)
(** ** The walk *)
(* ===================================================================== *)

(** Induction on trees, with the hypothesis for every entry of a
    directory. *)
Lemma node_tree_ind (P : node -> Prop) :
  P File ->
  (forall es : list (string * node),
      Forall (fun e => P (snd e)) es -> P (Dir es)) ->
  forall n : node, P n.
Proof.
  intros HF HD. fix IH 1. intros [|es]; [exact HF|].
  apply HD. induction es as [|e es IHes]; constructor.
  - apply IH.
  - exact IHes.
Qed.

(** The regular files below a directory: [file_under top n root name] says
    that the directory that the walk of [n] from [top] calls [root] has a
    regular file called [name]. *)
Inductive file_under : string -> node -> string -> string -> Prop :=
| file_here (top : string) (es : list (string * node)) (name : string) :
    In (name, File) es ->
    file_under top (Dir es) top name
| file_below (top : string) (es sub : list (string * node))
             (d root name : string) :
    In (d, Dir sub) es ->
    file_under (path_join top d) (Dir sub) root name ->
    file_under top (Dir es) root name.

(** Every regular file the walk passes, with the directory it is in. *)
Definition walked_files (triples : list (string * list string * list string))
  : list (string * string) :=
  flat_map (fun t => map (pair (fst (fst t))) (snd t)) triples.

(** The paths [find_files_with_extension] makes of a walk. *)
Definition media_paths (extensions : list string)
           (triples : list (string * list string * list string)) : list string :=
  flat_map
    (fun t =>
       let '(root, _, files_list) := t in
       map (path_join root)
           (filter (fun file => PyStr.endswith_any file extensions) files_list))
    triples.

Lemma media_paths_walked (extensions : list string)
      (triples : list (string * list string * list string)) :
  media_paths extensions triples
  = map (fun rn => path_join (fst rn) (snd rn))
        (filter (fun rn => PyStr.endswith_any (snd rn) extensions)
                (walked_files triples)).
Proof.
  unfold media_paths, walked_files.
  induction triples as [|[[root ds] fl] triples IH]; simpl; [reflexivity|].
  rewrite filter_app, map_app, <- IH. f_equal.
  clear IH. induction fl as [|x fl IHfl]; simpl; [reflexivity|].
  destruct (PyStr.endswith_any x extensions); simpl; now rewrite IHfl.
Qed.

Lemma in_filenames (es : list (string * node)) (name : string) :
  In name (filenames es) <-> In (name, File) es.
Proof.
  unfold filenames. rewrite in_map_iff. split.
  - intros [[nm c] [<- H]]. apply filter_In in H as [H Hc].
    simpl in *. now destruct c.
  - intros H. exists (name, File). split; [reflexivity|].
    apply filter_In. now split.
Qed.

Lemma in_walked_flat_map {A : Type}
      (g : A -> list (string * list string * list string)) (l : list A)
      (x : string * string) :
  In x (walked_files (flat_map g l)) <->
  exists e : A, In e l /\ In x (walked_files (g e)).
Proof.
  unfold walked_files. rewrite in_flat_map. split.
  - intros [t [Ht Hx]]. apply in_flat_map in Ht as [e [He Ht]].
    exists e. split; [exact He|]. apply in_flat_map. now exists t.
  - intros [e [He Hx]]. apply in_flat_map in Hx as [t [Ht Hx]].
    exists t. split; [|exact Hx]. apply in_flat_map. now exists e.
Qed.

Lemma walked_files_dir (top : string) (es : list (string * node)) :
  walked_files (os_walk top (Dir es))
  = (map (pair top) (filenames es)
       ++ walked_files
            (flat_map (fun e => match snd e with
                                | Dir _ => os_walk (path_join top (fst e)) (snd e)
                                | File => []
                                end) es))%list.
Proof. reflexivity. Qed.

Lemma walked_files_under (n : node) :
  forall top root name : string,
    In (root, name) (walked_files (os_walk top n)) <-> file_under top n root name.
Proof.
  induction n as [|es IH] using node_tree_ind; intros top root name.
  - simpl. split; [contradiction|]. intros H. inversion H.
  - rewrite walked_files_dir, in_app_iff, in_walked_flat_map.
    rewrite Forall_forall in IH. split.
    + intros [H|[[d c] [Hd H]]].
      * apply in_map_iff in H as [nm [[= <- <-] H]].
        apply file_here. now apply in_filenames.
      * specialize (IH _ Hd). cbn [fst snd] in *.
        destruct c as [|sub]; [contradiction|].
        apply (file_below _ _ _ Hd). now apply IH.
    + intros H. inversion H as [? ? ? Hin|? ? sub d ? ? Hin Hsub]; subst.
      * left. apply in_map_iff. exists name. split; [reflexivity|].
        now apply in_filenames.
      * right. exists (d, Dir sub). split; [exact Hin|].
        cbn [fst snd]. now apply (IH _ Hin).
Qed.

Lemma find_files_run (dir_path : string) (extensions : list string) (w : world) :
  find_files_with_extension dir_path extensions w
  = (Ret (media_paths extensions (walk (fs w) dir_path)), w).
Proof. reflexivity. Qed.

(** The files [find_files_with_extension] returns for the directory
    [dir_path] are, in the order of the walk, the regular files below it
    whose name ends in [.mp4] or [.mkv], each as the path joined from its
    directory and its name: a file below the directory is in the list
    when its name has such a suffix, and nothing else is in the list.
    The suffix is compared character for character, so [foo.mp4x] and
    [x.MP4] are left out, and so are the name and the path of the store
    file [hashmyfiles.db]. *)
Lemma found_files_are_the_media_files
        (dir_path : string) (w : world) (n : node) :
  find_path (roots (fs w)) dir_path = Some n ->
  let all := walked_files (os_walk dir_path n) in
  let files := map (fun rn => path_join (fst rn) (snd rn))
                   (filter (fun rn => is_media (snd rn)) all) in
  find_files_with_extension dir_path MEDIA_EXTENSIONS w = (Ret files, w) /\
  (forall root name : string,
      In (root, name) all <-> file_under dir_path n root name) /\
  (forall root name : string,
      file_under dir_path n root name ->
      is_media name = true -> In (path_join root name) files) /\
  (forall p : string,
      In p files ->
      exists root name : string,
        file_under dir_path n root name /\ p = path_join root name /\
        is_media name = true) /\
  (forall name : string,
      is_media name = true <->
      exists stem : string, name = stem ++ ".mp4" \/ name = stem ++ ".mkv") /\
  is_media "foo.mp4x" = false /\
  is_media "x.MP4" = false /\
  is_media DB_FILE = false /\
  ~ In (path_join dir_path DB_FILE) files.
Proof.
  intros Hn all files.
  assert (Hin : forall p : string,
             In p files ->
             exists root name : string,
               file_under dir_path n root name /\ p = path_join root name /\
               is_media name = true).
  { intros p Hp. apply in_map_iff in Hp as [[root name] [<- Hp]].
    apply filter_In in Hp as [Hp Hm]. exists root, name.
    split; [now apply walked_files_under|now split]. }
  split; [|split; [|split; [|split; [|split]]]].
  - rewrite find_files_run. unfold walk. rewrite Hn.
    now rewrite media_paths_walked.
  - intros root name. apply walked_files_under.
  - intros root name Hu Hm. apply in_map_iff. exists (root, name).
    split; [reflexivity|]. apply filter_In. split; [|exact Hm].
    now apply walked_files_under.
  - exact Hin.
  - apply is_media_iff.
  - repeat (split; [reflexivity|]).
    intros Hp. apply Hin in Hp as (root & name & _ & Heq & Hm).
    symmetry in Heq. revert Heq. now apply media_path_is_not_db_file.
Qed.


(* ===================================================================== *)
(** ** Creating the store file *)
(* ===================================================================== *)

(** What a path names: nothing, a regular file, or a directory. *)
Inductive kind : Type := Absent | Regular | Directory.

Definition kind_of (o : option node) : kind :=
  match o with
  | None => Absent
  | Some File => Regular
  | Some (Dir _) => Directory
  end.

Lemma isdir_kind (f : filesystem) (p : string) :
  isdir f p = match kind_of (find_path (roots f) p) with
              | Directory => true
              | _ => false
              end.
Proof. unfold isdir. now destruct (find_path (roots f) p) as [[|es]|]. Qed.

Lemma isfile_kind (f : filesystem) (p : string) :
  isfile f p = match kind_of (find_path (roots f) p) with
               | Regular => true
               | _ => false
               end.
Proof. unfold isfile. now destruct (find_path (roots f) p) as [[|es]|]. Qed.

Lemma prefix_split (a b : string) :
  String.prefix a b = true ->
  b = a ++ String.substring (String.length a)
                            (String.length b - String.length a) b.
Proof.
  revert b. induction a as [|x a IH]; intros b H.
  - simpl. rewrite Nat.sub_0_r. now rewrite substring_all.
  - destruct b as [|y b]; [discriminate|]. simpl in H.
    destruct (ascii_dec x y) as [->|]; [|discriminate].
    simpl. f_equal. now apply IH.
Qed.

Lemma no_sep_no_slash (nm : string) :
  has_sep nm = false -> PyStr.startswith nm "/" = false.
Proof.
  destruct nm as [|c r]; [reflexivity|]. cbn [has_sep]. intros H.
  apply orb_false_elim in H as [H _]. apply Ascii.eqb_neq in H.
  change (PyStr.startswith (String c r) "/")
    with (if ascii_dec "/"%char c then String.prefix "" r else false).
  destruct (ascii_dec "/" c) as [<-|]; [contradiction|reflexivity].
Qed.

Lemma child_name_join (d p nm : string) :
  child_name d p = Some nm -> path_join d nm = p.
Proof.
  unfold child_name, path_join.
  set (pre := if String.eqb d "" || PyStr.endswith d "/" then d else d ++ "/").
  destruct (PyStr.startswith p pre) eqn:Hp; [|discriminate].
  destruct (String.eqb _ "" || has_sep _) eqn:Hn; [discriminate|].
  intros [= <-]. apply orb_false_elim in Hn as [_ Hs].
  rewrite (no_sep_no_slash _ Hs).
  apply prefix_split in Hp. etransitivity; [|symmetry; exact Hp].
  subst pre.
  destruct (String.eqb d "" || PyStr.endswith d "/"); [reflexivity|].
  symmetry. apply append_assoc.
Qed.

Lemma first_some_app {A B : Type} (f : A -> option B) (l1 l2 : list A) :
  first_some f (l1 ++ l2)
  = match first_some f l1 with Some y => Some y | None => first_some f l2 end.
Proof.
  induction l1 as [|x l1 IH]; simpl; [reflexivity|].
  destruct (f x); [reflexivity|exact IH].
Qed.

Lemma first_some_none {A B : Type} (f : A -> option B) (l : list A) :
  first_some f l = None -> Forall (fun x => f x = None) l.
Proof.
  induction l as [|x l IH]; simpl; [constructor|].
  destruct (f x) eqn:E; [discriminate|]. intros H. constructor; auto.
Qed.

Section AddFile.

Variable p : string.

(** The property of one node: after the file [p] was added below it,
    [p] names a regular file, and every other path names what it named. *)
Definition add_keeps_kinds (n : node) : Prop :=
  forall (top : string) (n' : node),
    add_file top n p = Some n' ->
    find_node top n p = None ->
    forall q : string,
      kind_of (find_node top n' q)
      = if String.eqb q p then Regular else kind_of (find_node top n q).

Lemma entries_keep_kinds (mk : string -> string) (es es' : list (string * node)) :
  Forall (fun e => add_keeps_kinds (snd e)) es ->
  first_update (fun e => option_map (pair (fst e))
                           (add_file (mk (fst e)) (snd e) p)) es = Some es' ->
  first_some (fun e => find_node (mk (fst e)) (snd e) p) es = None ->
  forall q : string,
    kind_of (first_some (fun e => find_node (mk (fst e)) (snd e) q) es')
    = if String.eqb q p then Regular
      else kind_of (first_some (fun e => find_node (mk (fst e)) (snd e) q) es).
Proof.
  revert es'. induction es as [|[nm c] es IH]; intros es' HP Hu Hn q.
  - discriminate.
  - inversion HP as [|? ? Hc HP']; subst. simpl in Hu, Hn, Hc.
    destruct (find_node (mk nm) c p) eqn:Hcp; [discriminate|].
    destruct (add_file (mk nm) c p) as [c'|] eqn:Hadd; simpl in Hu.
    + injection Hu as <-. simpl.
      pose proof (Hc _ _ Hadd Hcp q) as Hk.
      destruct (find_node (mk nm) c' q) as [x'|] eqn:Hq'.
      * destruct (String.eqb q p); [now destruct x' as [|?]|].
        destruct (find_node (mk nm) c q) as [x|]; [exact Hk|].
        now destruct x'.
      * destruct (String.eqb q p); [discriminate|].
        now destruct (find_node (mk nm) c q) as [[|?]|].
    + destruct (first_update _ es) as [es1|] eqn:Hes; [|discriminate].
      injection Hu as <-. simpl.
      destruct (String.eqb q p) eqn:Hqp.
      * apply String.eqb_eq in Hqp. subst q. rewrite Hcp.
        specialize (IH _ HP' eq_refl Hn p). now rewrite String.eqb_refl in IH.
      * destruct (find_node (mk nm) c q); [reflexivity|].
        specialize (IH _ HP' eq_refl Hn q). now rewrite Hqp in IH.
Qed.

Lemma add_file_keeps_kinds (n : node) : add_keeps_kinds n.
Proof.
  induction n as [|es IH] using node_tree_ind; intros top n' Hadd Hnone q.
  - discriminate.
  - simpl in Hadd, Hnone.
    destruct (String.eqb top p) eqn:Htp; [discriminate|].
    destruct (child_name top p) as [nm|] eqn:Hc.
    + injection Hadd as <-. simpl.
      destruct (String.eqb top q) eqn:Htq.
      * apply String.eqb_eq in Htq. subst q.
        now rewrite Htp.
      * rewrite first_some_app. cbn [first_some find_node fst snd].
        rewrite (child_name_join _ _ Hc).
        destruct (String.eqb q p) eqn:Hqp.
        -- apply String.eqb_eq in Hqp. subst q.
           now rewrite Hnone, String.eqb_refl.
        -- rewrite String.eqb_sym, Hqp.
           match goal with
           | |- context [first_some ?f es] => now destruct (first_some f es)
           end.
    + destruct (first_update _ es) as [es1|] eqn:Hes; [|discriminate].
      injection Hadd as <-. simpl.
      destruct (String.eqb top q) eqn:Htq.
      * apply String.eqb_eq in Htq. subst q.
        now rewrite Htp.
      * now apply (entries_keep_kinds (path_join top) IH).
Qed.

Lemma create_file_kinds (rs rs' : list (string * node)) :
  create_file rs p = Some rs' ->
  find_path rs p = None ->
  forall q : string,
    kind_of (find_path rs' q)
    = if String.eqb q p then Regular else kind_of (find_path rs q).
Proof.
  intros Hc Hn q. unfold create_file, find_path in *.
  apply (entries_keep_kinds (fun nm => nm)); try assumption.
  apply Forall_forall. intros e _. apply add_file_keeps_kinds.
Qed.

End AddFile.

Lemma prefix_append (a b : string) : String.prefix a (a ++ b) = true.
Proof.
  induction a as [|x a IH]; [now destruct b|]. simpl.
  destruct (ascii_dec x x); [exact IH|contradiction].
Qed.

(** The store file is a direct child of its directory. *)
Lemma child_name_db_file (d : string) :
  child_name d (path_join d DB_FILE) = Some DB_FILE.
Proof.
  unfold child_name, path_join.
  change (PyStr.startswith DB_FILE "/") with false. cbv iota.
  set (pre := if String.eqb d "" || PyStr.endswith d "/" then d else d ++ "/").
  assert (Hp : (if String.eqb d "" || PyStr.endswith d "/"
                then d ++ DB_FILE else d ++ "/" ++ DB_FILE) = pre ++ DB_FILE).
  { subst pre. destruct (String.eqb d "" || PyStr.endswith d "/");
      [reflexivity|]. now rewrite append_assoc. }
  rewrite Hp. unfold PyStr.startswith. rewrite prefix_append.
  rewrite length_append.
  replace (String.length pre + String.length DB_FILE - String.length pre)%nat
    with (String.length DB_FILE) by lia.
  now rewrite substring_skip.
Qed.

Lemma first_update_some {A : Type} (f : A -> option A) (l : list A) (x : A) :
  In x l -> f x <> None -> first_update f l <> None.
Proof.
  induction l as [|y l IH]; intros Hin Hx; [contradiction|]. simpl.
  destruct (f y) eqn:Hy; [discriminate|].
  destruct Hin as [->|Hin]; [contradiction|].
  specialize (IH Hin Hx). now destruct (first_update f l).
Qed.

Lemma first_some_in {A B : Type} (f : A -> option B) (l : list A) (y : B) :
  first_some f l = Some y -> exists x, In x l /\ f x = Some y.
Proof.
  induction l as [|x l IH]; [discriminate|]. simpl.
  destruct (f x) eqn:Hx.
  - intros [= <-]. exists x. now split; [left|].
  - intros H. destruct (IH H) as (x' & Hin & Hx'). exists x'.
    now split; [right|].
Qed.

(** A file can be created in every directory the tree has. *)
Lemma add_file_succeeds (p d nm : string) (n : node) :
  child_name d p = Some nm ->
  forall (top : string) (es : list (string * node)),
    find_node top n d = Some (Dir es) -> add_file top n p <> None.
Proof.
  intros Hc. induction n as [|es0 IH] using node_tree_ind; intros top es Hf.
  - simpl in Hf. destruct (String.eqb top d); discriminate.
  - simpl in Hf. simpl add_file.
    destruct (child_name top p) eqn:Hct; [discriminate|].
    destruct (String.eqb top d) eqn:Htd.
    + apply String.eqb_eq in Htd. subst top. congruence.
    + apply first_some_in in Hf as ([nm' c] & Hin & Hfc).
      rewrite Forall_forall in IH. specialize (IH _ Hin _ _ Hfc).
      simpl in IH, Hfc.
      match goal with
      | |- option_map Dir (first_update ?f es0) <> None =>
          pose proof (@first_update_some _ f es0 (nm', c) Hin) as Hu
      end.
      simpl in Hu.
      destruct (first_update _ es0); [discriminate|].
      exfalso. apply Hu; [|reflexivity].
      now destruct (add_file (path_join top nm') c p).
Qed.

Lemma create_file_succeeds (rs : list (string * node)) (p d nm : string)
      (es : list (string * node)) :
  child_name d p = Some nm ->
  find_path rs d = Some (Dir es) ->
  create_file rs p <> None.
Proof.
  intros Hc Hf. unfold find_path in Hf. unfold create_file.
  apply first_some_in in Hf as ([nm' c] & Hin & Hfc). simpl in Hfc.
  apply (@first_update_some _ _ rs (nm', c) Hin). simpl.
  pose proof (@add_file_succeeds p d nm c Hc nm' es Hfc) as Ha.
  now destruct (add_file nm' c p).
Qed.

(* ===================================================================== *)
(** ** Generation *)
(* ===================================================================== *)

(** A store file that cannot take rows: it has no table [hashes], and
    either it is a file as it is, or SQLite cannot open it. *)
Definition unwritable (f : filesystem) (db_file : string) : Prop :=
  store_table f db_file = None /\
  (isfile f db_file = true \/ exists e, Sqlite3.connect f db_file = inl e).

Lemma store_table_write (f : filesystem) (db_file : string) (t : table) :
  isfile f db_file = true ->
  store_table (write_data f db_file (Sqlite (Some t))) db_file = Some t.
Proof.
  intros Hf. unfold store_table, isfile in *. simpl.
  destruct (find_path (roots f) db_file) as [[|?]|]; try discriminate.
  now rewrite String.eqb_refl.
Qed.

Lemma has_key_app (t : table) (m h k : string) :
  Sqlite3.has_key (t ++ [(m, h)])%list k
  = Sqlite3.has_key t k || String.eqb m k.
Proof.
  unfold Sqlite3.has_key. rewrite existsb_app. simpl. now rewrite orb_false_r.
Qed.

(** The two statements of the loop of [generate], on a store that cannot
    take rows: both fail, and change nothing. *)
Lemma select_path_unwritable (db_file m : string) (w : world) :
  unwritable (fs w) db_file ->
  exists es,
    database.media_file_exist db_file m w = (Ret false, logged w es) /\
    opens es = [].
Proof.
  intros [Ht [Hf|[e He]]]; unfold database.media_file_exist,
    database.execute_query, bind.
  - rewrite (connect_existing _ _ Hf). unfold store_table in Ht.
    rewrite Hf in Ht. unfold Sqlite3.execute.
    destruct (data (fs w) db_file) as [[|b bs]|[t|]]; try discriminate;
      simpl; eexists; (split; [unfold logged; rewrite <- app_assoc|]);
      reflexivity.
  - rewrite He. simpl. eexists. split; reflexivity.
Qed.

Lemma insert_unwritable (db_file m h : string) (w : world) :
  unwritable (fs w) db_file ->
  exists es,
    database.add_hash db_file m h w = (Ret tt, logged w es) /\ opens es = [].
Proof.
  intros [Ht [Hf|[e He]]]; unfold database.add_hash,
    database.execute_query, bind.
  - rewrite (connect_existing _ _ Hf). unfold store_table in Ht.
    rewrite Hf in Ht. unfold Sqlite3.execute.
    destruct (data (fs w) db_file) as [[|b bs]|[t|]]; try discriminate;
      simpl; eexists; (split; [unfold logged; rewrite <- app_assoc|]);
      reflexivity.
  - rewrite He. simpl. eexists. split; reflexivity.
Qed.

(** [INSERT] of a new key into a store that holds the table. *)
Lemma insert_run (db_file m h : string) (w : world) (t : table) :
  store_table (fs w) db_file = Some t ->
  Sqlite3.has_key t m = false ->
  database.add_hash db_file m h w
  = (Ret tt,
     mkWorld (write_data (fs w) db_file (Sqlite (Some (t ++ [(m, h)])%list)))
             (trace w ++ [Execute db_file Sqlite3.q_insert [m; h]])).
Proof.
  unfold store_table. destruct (isfile (fs w) db_file) eqn:Hf; [|discriminate].
  intros Ht Hk. unfold database.add_hash, database.execute_query, bind.
  rewrite (connect_existing _ _ Hf). unfold Sqlite3.execute.
  destruct (data (fs w) db_file) as [bs|[t'|]]; try discriminate.
  injection Ht as ->. simpl. now rewrite Hk.
Qed.

Lemma opens_selects (db_file : string) (ms : list string) :
  opens (map (fun m => Execute db_file Sqlite3.q_select_path [m]) ms) = [].
Proof. induction ms as [|m ms IH]; [reflexivity|exact IH]. Qed.

Lemma statements_selects (db_file : string) (ms : list string) :
  Forall (fun q => q = Sqlite3.q_select_path)
         (statements (map (fun m => Execute db_file Sqlite3.q_select_path [m]) ms)).
Proof.
  induction ms as [|m ms IH]; simpl; constructor; [reflexivity|exact IH].
Qed.

Section Generation.

Variable db_image : database -> list byte.

(** The body of the loop of [generate]. *)
Definition generate_step (db_file media_file : string) : M unit :=
  known <- database.media_file_exist db_file media_file ;;
  if negb known then
    print ("Generate hash for: " ++ media_file) ;;
    generated_hash <- generate_sha256_hash db_image media_file ;;
    database.add_hash db_file media_file generated_hash
  else ret tt.

(** The store as [generate] makes sure of it before the walk. *)
Definition prepare_store (db_file : string) : M unit :=
  e <- os_path_isfile db_file ;;
  if e then
    print (db_file ++ " exists. Will look for new files..." ++ nl)
  else
    print (db_file ++ " does not exist. Creating a new database..." ++ nl) ;;
    database.create_new_database db_file.

Lemma generate_unfold (dir_path : string) (w : world) :
  isdir (fs w) dir_path = true ->
  generate db_image dir_path w
  = (prepare_store (path_join dir_path DB_FILE) ;;
     media_files <- find_files_with_extension dir_path MEDIA_EXTENSIONS ;;
     for_each media_files (generate_step (path_join dir_path DB_FILE)) ;;
     print "Done" ;;
     sys_exit 0) w.
Proof.
  intros Hd. unfold generate. unfold bind at 1, os_path_isdir.
  now rewrite Hd.
Qed.

Lemma hash_world (path : string) (w : world) :
  exists r, generate_sha256_hash db_image path w = (r, logged w [Open path]) /\
            forall code, r <> Raise (SystemExit code).
Proof.
  unfold generate_sha256_hash, open_rb, bind, log, logged. simpl.
  destruct (find_path (roots (fs w)) path) as [[|es]|];
    eexists; (split; [reflexivity|]); intros code; discriminate.
Qed.

(** The loop body on a store that holds the table: a known file costs one
    [SELECT]; a new one is hashed and inserted, unless it cannot be
    opened.  The tree is not touched, and no key is lost. *)
Lemma generate_step_good (db_file m : string) (w : world) (t : table) :
  store_table (fs w) db_file = Some t ->
  (Sqlite3.has_key t m = true ->
   generate_step db_file m w
   = (Ret tt, logged w [Execute db_file Sqlite3.q_select_path [m]])) /\
  forall r w',
    generate_step db_file m w = (r, w') ->
    match r with
    | Ret _ =>
        roots (fs w') = roots (fs w) /\
        exists t', store_table (fs w') db_file = Some t' /\
                   Sqlite3.has_key t' m = true /\
                   forall k, Sqlite3.has_key t k = true ->
                             Sqlite3.has_key t' k = true
    | Raise e => forall code, e <> SystemExit code
    end.
Proof.
  intros Ht. unfold generate_step.
  rewrite (bind_ret _ _ _ (@media_file_exist_run db_file m w t Ht)).
  destruct (Sqlite3.has_key t m) eqn:Hk; cbn [negb].
  - split; [reflexivity|]. intros r w' [= <- <-]. split; [reflexivity|].
    exists t. now repeat split.
  - split; [discriminate|]. intros r w'.
    unfold bind at 1. rewrite print_run. rewrite logged_logged.
    destruct (hash_world m (logged w ([Execute db_file Sqlite3.q_select_path [m]]
                                        ++ [Print ("Generate hash for: " ++ m)])))
      as (rh & Hh & Hne).
    destruct rh as [h|e].
    + rewrite (bind_ret _ _ _ Hh). rewrite logged_logged.
      rewrite (@insert_run db_file m h (logged w _) t Ht Hk).
      intros [= <- <-]. cbn [fs roots write_data logged]. split; [reflexivity|].
      exists (t ++ [(m, h)])%list. split; [|split].
      * apply store_table_write. unfold store_table in Ht.
        now destruct (isfile (fs w) db_file).
      * rewrite has_key_app, String.eqb_refl. apply orb_true_r.
      * intros k Hkk. rewrite has_key_app, Hkk. reflexivity.
    + rewrite (bind_raise _ _ _ Hh). intros [= <- <-]. intros code Heq.
      apply (Hne code). now rewrite Heq.
Qed.

Lemma generate_step_unwritable (db_file m : string) (w : world) :
  unwritable (fs w) db_file ->
  exists r es, generate_step db_file m w = (r, logged w es).
Proof.
  intros Hu. unfold generate_step.
  destruct (@select_path_unwritable db_file m w Hu) as (es1 & H1 & _).
  rewrite (bind_ret _ _ _ H1). cbn [negb].
  unfold bind at 1. rewrite print_run, logged_logged.
  destruct (hash_world m (logged w (es1 ++ [Print ("Generate hash for: " ++ m)])))
    as (rh & Hh & _).
  destruct rh as [h|e].
  - rewrite (bind_ret _ _ _ Hh). rewrite logged_logged.
    match goal with
    | |- context [database.add_hash db_file m h ?w1] =>
        destruct (@insert_unwritable db_file m h w1 Hu) as (es2 & H2 & _)
    end.
    rewrite H2, logged_logged. now eexists; eexists.
  - rewrite (bind_raise _ _ _ Hh). rewrite logged_logged.
    now eexists; eexists.
Qed.

Lemma generate_loop_unwritable (db_file : string) (ms : list string) (w : world) :
  unwritable (fs w) db_file ->
  exists r es, for_each ms (generate_step db_file) w = (r, logged w es).
Proof.
  revert w. induction ms as [|m ms IH]; intros w Hu; simpl.
  - exists (Ret tt), []. unfold ret. now rewrite logged_nil.
  - destruct (@generate_step_unwritable db_file m w Hu) as (r & es & Hs).
    destruct r as [[]|e].
    + rewrite (bind_ret _ _ _ Hs).
      destruct (IH (logged w es) Hu) as (r' & es' & Hl).
      rewrite Hl, logged_logged. now eexists; eexists.
    + rewrite (bind_raise _ _ _ Hs). now eexists; eexists.
Qed.

Lemma generate_loop_good (db_file : string) (ms : list string) :
  forall (w : world) (t : table) r w',
    store_table (fs w) db_file = Some t ->
    for_each ms (generate_step db_file) w = (r, w') ->
    match r with
    | Ret _ =>
        roots (fs w') = roots (fs w) /\
        exists t', store_table (fs w') db_file = Some t' /\
                   (forall m, In m ms -> Sqlite3.has_key t' m = true) /\
                   forall k, Sqlite3.has_key t k = true ->
                             Sqlite3.has_key t' k = true
    | Raise e => forall code, e <> SystemExit code
    end.
Proof.
  induction ms as [|m ms IH]; intros w t r w' Ht; simpl.
  - intros [= <- <-]. split; [reflexivity|]. exists t.
    split; [exact Ht|]. split; [contradiction|auto].
  - destruct (generate_step db_file m w) as [r1 w1] eqn:Hs.
    pose proof (proj2 (@generate_step_good db_file m w t Ht) _ _ Hs) as H1.
    destruct r1 as [[]|e].
    + rewrite (bind_ret _ _ _ Hs). intros Hl.
      destruct H1 as (Hr1 & t1 & Ht1 & Hm1 & Hmono1).
      pose proof (IH _ _ _ _ Ht1 Hl) as H2.
      destruct r as [[]|e]; [|exact H2].
      destruct H2 as (Hr2 & t2 & Ht2 & Hm2 & Hmono2).
      split; [congruence|]. exists t2. split; [exact Ht2|]. split.
      * intros k [<-|Hk]; [now apply Hmono2|now apply Hm2].
      * intros k Hk. now apply Hmono2, Hmono1.
    + rewrite (bind_raise _ _ _ Hs). intros [= <- <-]. exact H1.
Qed.

(** The loop over files that are all in the store: one [SELECT] each. *)
Lemma generate_loop_known (db_file : string) (ms : list string)
      (w : world) (t : table) :
  store_table (fs w) db_file = Some t ->
  (forall m, In m ms -> Sqlite3.has_key t m = true) ->
  for_each ms (generate_step db_file) w
  = (Ret tt,
     logged w (map (fun m => Execute db_file Sqlite3.q_select_path [m]) ms)).
Proof.
  revert w. induction ms as [|m ms IH]; intros w Ht Hall; simpl.
  - unfold ret. now rewrite logged_nil.
  - rewrite (bind_ret _ _ _
               (proj1 (@generate_step_good db_file m w t Ht) (Hall m (or_introl eq_refl)))).
    rewrite IH; [now rewrite logged_logged|exact Ht|].
    intros k Hk. apply Hall. now right.
Qed.

Lemma isdir_roots (f g : filesystem) (q : string) :
  roots g = roots f -> isdir g q = isdir f q.
Proof. unfold isdir. now intros ->. Qed.

Lemma isfile_of_store (f : filesystem) (db_file : string) (t : table) :
  store_table f db_file = Some t -> isfile f db_file = true.
Proof. unfold store_table. now destruct (isfile f db_file). Qed.

(** Before the walk the store either holds the table, or cannot take
    rows; and what was a directory still is one. *)
Lemma prepare_store_run (db_file : string) (w : world) :
  exists w0,
    prepare_store db_file w = (Ret tt, w0) /\
    (forall q, isdir (fs w0) q = isdir (fs w) q) /\
    ((exists t, store_table (fs w0) db_file = Some t) \/
     (fs w0 = fs w /\ unwritable (fs w) db_file)).
Proof.
  unfold prepare_store, bind at 1, os_path_isfile.
  destruct (isfile (fs w) db_file) eqn:Hf.
  - rewrite print_run. eexists. split; [reflexivity|]. split; [reflexivity|].
    cbn [fs logged].
    destruct (store_table (fs w) db_file) as [t|] eqn:Ht.
    + left. now exists t.
    + right. split; [reflexivity|]. split; [exact Ht|now left].
  - unfold bind at 1. rewrite print_run.
    unfold database.create_new_database, database.execute_query, bind.
    cbn [fs logged trace]. unfold Sqlite3.connect.
    assert (Hnone : store_table (fs w) db_file = None)
      by (unfold store_table; now rewrite Hf).
    destruct (find_path (roots (fs w)) db_file) as [[|es]|] eqn:Hfind.
    + unfold isfile in Hf. now rewrite Hfind in Hf.
    + simpl. eexists. split; [reflexivity|]. split; [reflexivity|].
      right. cbn [fs]. split; [reflexivity|]. split; [exact Hnone|]. right.
      unfold Sqlite3.connect. rewrite Hfind. now eexists.
    + destruct (create_file (roots (fs w)) db_file) as [rs|] eqn:Hc.
      * unfold Sqlite3.execute. cbn [data write_data].
        rewrite String.eqb_refl. cbn [Sqlite3.load].
        change (Sqlite3.prepare _) with (Some Sqlite3.CreateHashes).
        cbn [Sqlite3.step]. unfold ret. eexists. split; [reflexivity|].
        pose proof (@create_file_kinds db_file _ _ Hc Hfind) as Hk.
        cbn [fs]. split.
        -- intros q. rewrite !isdir_kind. cbn [roots write_data].
           rewrite Hk. destruct (String.eqb q db_file) eqn:Hq; [|reflexivity].
           apply String.eqb_eq in Hq. subst q. now rewrite Hfind.
        -- left. exists []. apply store_table_write.
           rewrite isfile_kind. cbn [roots write_data].
           now rewrite Hk, String.eqb_refl.
      * simpl. eexists. split; [reflexivity|]. split; [reflexivity|].
        right. cbn [fs]. split; [reflexivity|]. split; [exact Hnone|]. right.
        unfold Sqlite3.connect. rewrite Hfind, Hc. now eexists.
Qed.

Lemma prepare_store_existing (db_file : string) (w : world) :
  isfile (fs w) db_file = true ->
  prepare_store db_file w
  = (Ret tt,
     logged w [Print (db_file ++ " exists. Will look for new files..." ++ nl)]).
Proof.
  intros Hf. unfold prepare_store, bind, os_path_isfile. now rewrite Hf.
Qed.

(** A run that ends with status 0 leaves a record store, when it found
    the store file absent or holding the table. *)
Lemma generate_leaves_store (dir_path : string) (w w1 : world) :
  find_path (roots (fs w)) (path_join dir_path DB_FILE) = None \/
  (exists t, store_table (fs w) (path_join dir_path DB_FILE) = Some t) ->
  generate db_image dir_path w = (Raise (SystemExit 0), w1) ->
  exists t1, store_table (fs w1) (path_join dir_path DB_FILE) = Some t1.
Proof.
  set (db_file := path_join dir_path DB_FILE). intros Hinit Hrun.
  destruct (isdir (fs w) dir_path) eqn:Hd.
  2:{ rewrite (generate_elsewhere db_image _ _ Hd) in Hrun.
      discriminate. }
  rewrite (generate_unfold _ _ Hd) in Hrun. fold db_file in Hrun.
  destruct (prepare_store_run db_file w) as (w0 & Hp & _ & Hstore).
  rewrite (bind_ret _ _ _ Hp) in Hrun.
  rewrite (bind_ret _ _ _ (find_files_run dir_path _ w0)) in Hrun.
  set (ms := media_paths MEDIA_EXTENSIONS (walk (fs w0) dir_path)) in *.
  destruct Hstore as [[t0 Ht0]|[_ [Hnone Hbad]]].
  - destruct (for_each ms (generate_step db_file) w0) as [r wl] eqn:Hloop.
    pose proof (@generate_loop_good db_file ms w0 t0 r wl Ht0 Hloop) as Hl.
    destruct r as [[]|e].
    + rewrite (bind_ret _ _ _ Hloop) in Hrun.
      unfold bind, print, log, sys_exit, raise in Hrun.
      injection Hrun as <-. cbn [fs].
      destruct Hl as (_ & t' & Ht' & _). now exists t'.
    + rewrite (bind_raise _ _ _ Hloop) in Hrun.
      injection Hrun as He _. now apply Hl in He.
  - exfalso. destruct Hinit as [Habs|[t Ht]]; [|congruence].
    destruct Hbad as [Hf|[e He]].
    + unfold isfile in Hf. now rewrite Habs in Hf.
    + unfold Sqlite3.connect in He. rewrite Habs in He.
      unfold isdir in Hd.
      destruct (find_path (roots (fs w)) dir_path) as [[|es]|] eqn:Hdir;
        try discriminate.
      pose proof (@create_file_succeeds _ db_file dir_path DB_FILE es
                    (child_name_db_file dir_path) Hdir) as Hc.
      now destruct (create_file (roots (fs w)) db_file).
Qed.

(** After a run that ends with status 0 and leaves a record store, the
    directory is still there and every media file below it has its row. *)
Lemma generate_stores_media_files
      (dir_path : string) (w w1 : world) (t1 : table) :
  generate db_image dir_path w = (Raise (SystemExit 0), w1) ->
  store_table (fs w1) (path_join dir_path DB_FILE) = Some t1 ->
  isdir (fs w1) dir_path = true /\
  forall m : string,
    In m (media_paths MEDIA_EXTENSIONS (walk (fs w1) dir_path)) ->
    Sqlite3.has_key t1 m = true.
Proof.
  set (db_file := path_join dir_path DB_FILE). intros Hrun Ht1.
  destruct (isdir (fs w) dir_path) eqn:Hd.
  2:{ rewrite (generate_elsewhere db_image _ _ Hd) in Hrun.
      discriminate. }
  rewrite (generate_unfold _ _ Hd) in Hrun. fold db_file in Hrun.
  destruct (prepare_store_run db_file w) as (w0 & Hp & Hdir & Hstore).
  rewrite (bind_ret _ _ _ Hp) in Hrun.
  rewrite (bind_ret _ _ _ (find_files_run dir_path _ w0)) in Hrun.
  set (ms := media_paths MEDIA_EXTENSIONS (walk (fs w0) dir_path)) in *.
  destruct (for_each ms (generate_step db_file) w0) as [r wl] eqn:Hloop.
  assert (Hgood : roots (fs w1) = roots (fs w0) /\
                  forall m, In m ms -> Sqlite3.has_key t1 m = true).
  { destruct Hstore as [[t0 Ht0]|[Hsame Hu]]; [|rewrite <- Hsame in Hu].
    - pose proof (@generate_loop_good db_file ms w0 t0 r wl Ht0 Hloop) as Hl.
      destruct r as [[]|e].
      + rewrite (bind_ret _ _ _ Hloop) in Hrun.
        unfold bind, print, log, sys_exit, raise in Hrun.
        injection Hrun as <-. cbn [fs].
        destruct Hl as (Hr & t' & Ht' & Hall & _).
        cbn [fs] in Ht1. rewrite Ht' in Ht1. injection Ht1 as <-.
        now split.
      + rewrite (bind_raise _ _ _ Hloop) in Hrun.
        injection Hrun as He _. now apply Hl in He.
    - destruct (@generate_loop_unwritable db_file ms w0 Hu) as (r' & es' & Hl).
      rewrite Hl in Hloop. injection Hloop as <- <-.
      assert (Hfs : fs w1 = fs w0).
      { destruct r' as [[]|e].
        - rewrite (bind_ret _ _ _ Hl) in Hrun.
          unfold bind, print, log, sys_exit, raise in Hrun.
          now injection Hrun as <-.
        - rewrite (bind_raise _ _ _ Hl) in Hrun. now injection Hrun as _ <-. }
      rewrite Hfs in Ht1. destruct Hu as [Hn _]. congruence. }
  destruct Hgood as [Hroots Hall]. split.
  - now rewrite (isdir_roots _ _ _ Hroots), Hdir.
  - unfold walk. rewrite Hroots. exact Hall.
Qed.

(** C3.  When a run of [generate] over a directory ends with status 0 and
    leaves a record store, that is, the store file holds the table, a
    second run right after it ends with status 0 too and leaves the file
    system, and so the record store, as the first run left it: it opens no
    file to hash it, and the only statements it executes are the [SELECT]s
    that ask whether a path is known.  The first run leaves a record store
    whenever it found the store file absent or holding the table
    ([generate_leaves_store]); over a store file without the table there
    is none after either run, and the second run hashes every media file
    again. *)
Theorem generate_twice_is_idempotent
        (dir_path : string) (w w1 : world) (t1 : table) :
  generate db_image dir_path w = (Raise (SystemExit 0), w1) ->
  store_table (fs w1) (path_join dir_path DB_FILE) = Some t1 ->
  exists es : list event,
    generate db_image dir_path w1 = (Raise (SystemExit 0), logged w1 es) /\
    store_table (fs (logged w1 es)) (path_join dir_path DB_FILE) = Some t1 /\
    opens es = [] /\
    Forall (fun q => q = Sqlite3.q_select_path) (statements es).
Proof.
  set (db_file := path_join dir_path DB_FILE). intros Hrun Ht1.
  destruct (generate_stores_media_files _ _ Hrun Ht1) as [Hd1 Hall].
  set (ms := media_paths MEDIA_EXTENSIONS (walk (fs w1) dir_path)) in *.
  rewrite (generate_unfold _ _ Hd1). fold db_file.
  rewrite (bind_ret _ _ _ (prepare_store_existing _ _ (isfile_of_store _ _ Ht1))).
  rewrite (bind_ret _ _ _ (find_files_run dir_path _ _)).
  cbn [fs logged]. fold ms.
  rewrite (bind_ret _ _ _
             (@generate_loop_known db_file ms (logged w1 _) t1 Ht1 Hall)).
  unfold bind, print, log, sys_exit, raise. cbn [fs trace logged].
  eexists. split; [|split; [|split]].
  - unfold logged. rewrite <- !app_assoc. reflexivity.
  - exact Ht1.
  - rewrite opens_app. cbn [opens flat_map app].
    rewrite opens_app. simpl. rewrite app_nil_r. apply opens_selects.
  - rewrite statements_app. cbn [statements flat_map app].
    rewrite statements_app. simpl. rewrite app_nil_r.
    apply statements_selects.
Qed.

End Generation.

(* ===================================================================== *)
(** ** A library, worked through *)
(* ===================================================================== *)

Module Library.

(** The image of a database file does not matter below. *)
Definition image (d : database) : list byte := [].

(** [lib/a.mp4] holds [X]; every other file holds [hello]. *)
Definition lib : filesystem :=
  mkFs [("lib", Dir [("a.mp4", File);
                     ("b.txt", File);
                     ("sub", Dir [("c.mkv", File); ("x.MP4", File)])])]
       (fun p => if String.eqb p "lib/a.mp4"
                 then Raw (list_byte_of_string "X")
                 else Raw (list_byte_of_string "hello")).

Definition start : world := mkWorld lib [].

(** The world after [generate] ran over [lib]. *)
Definition hashed : world := snd (generate image "lib" start).

Definition rows : table :=
  [("lib/a.mp4",
    "4b68ab3847feda7d6c62c1fbcbeebfa35eab7351ed5e78f4ddadea5df64b8015");
   ("lib/sub/c.mkv",
    "2cf24dba5fb0a30e26e83b2ac5b9e29e1b161e5c1fa7425e73043362938b9824")].

(** [lib/a.mp4] got a byte more after the hashes were taken. *)
Definition damaged : world :=
  mkWorld (write_data (fs hashed) "lib/a.mp4"
                      (Raw (list_byte_of_string "XY"))) [].

(** An empty file where the store should be. *)
Definition blank : world :=
  mkWorld (mkFs [("lib", Dir [("a.mp4", File); ("hashmyfiles.db", File)])]
                (fun p => if String.eqb p "lib/a.mp4"
                          then Raw (list_byte_of_string "X")
                          else Raw []))
          [].

Example generate_lib :
  fst (generate image "lib" start) = Raise (SystemExit 0) /\
  store_table (fs hashed) "lib/hashmyfiles.db" = Some rows /\
  opened hashed = ["lib/a.mp4"; "lib/sub/c.mkv"] /\
  roots (fs hashed)
  = [("lib", Dir [("a.mp4", File);
                  ("b.txt", File);
                  ("sub", Dir [("c.mkv", File); ("x.MP4", File)]);
                  ("hashmyfiles.db", File)])].
Proof. vm_compute. repeat split. Qed.

Example verify_lib :
  fst (verify image "lib" hashed) = Raise (SystemExit 0) /\
  stdout (snd (verify image "lib" (mkWorld (fs hashed) [])))
  = ["lib/hashmyfiles.db exists. Verifying files..." ++ nl;
     "lib/a.mp4 [OK]";
     "lib/sub/c.mkv [OK]";
     nl ++ "No corrupted files found"].
Proof. vm_compute. split; reflexivity. Qed.

Example verify_damaged :
  fst (verify image "lib" damaged) = Raise (SystemExit 1) /\
  stdout (snd (verify image "lib" damaged))
  = ["lib/hashmyfiles.db exists. Verifying files..." ++ nl;
     "lib/a.mp4 [Corrupted]";
     "lib/sub/c.mkv [OK]";
     nl ++ "1 corrupted files:";
     "File: lib/a.mp4";
     "Expected hash: 4b68ab3847feda7d6c62c1fbcbeebfa35eab7351ed5e78f4ddadea5df64b8015";
     "File hash: c07a3de039fbc0914689549f041eae295d621de7f7f647fd863f6d2f8db2080e"
       ++ nl].
Proof. vm_compute. split; reflexivity. Qed.

(** Over an empty store file no table is made: every run hashes the
    media files again and stores nothing, and [verify] stops on the
    listing it did not get. *)
Example generate_blank :
  fst (generate image "lib" blank) = Raise (SystemExit 0) /\
  fs (snd (generate image "lib" blank)) = fs blank /\
  opened (snd (generate image "lib" blank)) = ["lib/a.mp4"] /\
  stdout (snd (generate image "lib" blank))
  = ["lib/hashmyfiles.db exists. Will look for new files..." ++ nl;
     "SQLite error: no such table: hashes";
     "Generate hash for: lib/a.mp4";
     "SQLite error: no such table: hashes";
     "Done"].
Proof. vm_compute. repeat split. Qed.

Example verify_blank :
  fst (verify image "lib" blank)
  = Raise (TypeError "'NoneType' object is not iterable") /\
  exit_status (fst (verify image "lib" blank)) = 1%Z.
Proof. vm_compute. split; reflexivity. Qed.

(** Two runs in a row over [blank].  Both end with status 0 and leave the
    directory and the store file as they were, and the second run hashes
    [lib/a.mp4] again. *)
Lemma generate_twice_rehashes :
  let w1 := snd (generate image "lib" blank) in
  let w2 := snd (generate image "lib" w1) in
  fst (generate image "lib" blank) = Raise (SystemExit 0) /\
  fst (generate image "lib" w1) = Raise (SystemExit 0) /\
  fs w1 = fs blank /\
  fs w2 = fs w1 /\
  opened w1 = ["lib/a.mp4"] /\
  opened w2 = ["lib/a.mp4"; "lib/a.mp4"] /\
  opened w2 <> opened w1.
Proof. vm_compute. repeat split. discriminate. Qed.

(** The library with a store that holds the table and no row. *)
Definition fresh : world :=
  mkWorld (fs (snd (database.create_new_database "lib/hashmyfiles.db" start))) [].

(** The listing tells a failed query from a table without rows: over
    [fresh] it returns the empty list, over [blank], where the statement
    fails, it returns [None]; and [verify], its caller, ends with status 0
    on the one and with a [TypeError] on the other. *)
Lemma listing_tells_failure_from_no_rows :
  store_table (fs fresh) "lib/hashmyfiles.db" = Some [] /\
  fst (database.get_hashes "lib/hashmyfiles.db" fresh) = Ret (Some []) /\
  storage_error (fs blank) "lib/hashmyfiles.db" Sqlite3.q_select_all []
  = Some "no such table: hashes" /\
  fst (database.get_hashes "lib/hashmyfiles.db" blank) = Ret None /\
  fst (database.get_hashes "lib/hashmyfiles.db" fresh)
  <> fst (database.get_hashes "lib/hashmyfiles.db" blank) /\
  fst (verify image "lib" fresh) = Raise (SystemExit 0) /\
  fst (verify image "lib" blank)
  = Raise (TypeError "'NoneType' object is not iterable").
Proof. vm_compute. repeat split. discriminate. Qed.

(** The theorems above, at this library. *)

Lemma verify_exit_code_lib :
  store_table (fs hashed) (path_join "lib" DB_FILE) = Some rows /\
  exit_status (fst (verify image "lib" hashed)) = 0%Z.
Proof.
  assert (H : store_table (fs hashed) (path_join "lib" DB_FILE) = Some rows)
    by (vm_compute; reflexivity).
  split; [exact H|].
  apply (verify_exit_code image "lib" hashed H). vm_compute. reflexivity.
Defined.

Lemma verify_classifies_each_record_lib :
  opened (snd (verify image "lib" damaged))
  = (opened damaged ++ ["lib/a.mp4"; "lib/sub/c.mkv"])%list.
Proof.
  assert (H : store_table (fs damaged) (path_join "lib" DB_FILE) = Some rows)
    by (vm_compute; reflexivity).
  exact (proj2 (verify_classifies_each_record image "lib" damaged H)).
Defined.

Lemma storage_failures_are_swallowed_blank :
  exists w' : world,
    database.media_file_exist "lib/hashmyfiles.db" "lib/a.mp4" blank
    = (Ret false, w') /\
    stdout w'
    = (stdout blank ++ ["SQLite error: no such table: hashes"])%list.
Proof.
  refine (proj1 (proj2 (proj2 (proj2 (proj2
            (@storage_failures_are_swallowed "lib/hashmyfiles.db" "lib/a.mp4"
               "00" blank)))))
            "no such table: hashes" _).
  reflexivity.
Defined.

Lemma generate_twice_is_idempotent_lib :
  exists es : list event,
    generate image "lib" hashed = (Raise (SystemExit 0), logged hashed es) /\
    store_table (fs (logged hashed es)) (path_join "lib" DB_FILE) = Some rows /\
    opens es = [] /\
    Forall (fun q => q = Sqlite3.q_select_path) (statements es).
Proof.
  apply (generate_twice_is_idempotent image "lib" start).
  - vm_compute. reflexivity.
  - vm_compute. reflexivity.
Defined.

Lemma found_files_are_the_media_files_lib :
  find_files_with_extension "lib" MEDIA_EXTENSIONS start
  = (Ret ["lib/a.mp4"; "lib/sub/c.mkv"], start).
Proof.
  refine (proj1 (found_files_are_the_media_files "lib" start
                   (n := Dir [("a.mp4", File);
                              ("b.txt", File);
                              ("sub", Dir [("c.mkv", File); ("x.MP4", File)])])
                   _)).
  reflexivity.
Defined.

Lemma streamed_hash_is_whole_file_hash_lib :
  isfile (fs start) "lib/a.mp4" = true /\
  fst (generate_sha256_hash image "lib/a.mp4" start)
  = Ret (hashlib.hexdigest (list_byte_of_string "X")).
Proof.
  split; [reflexivity|].
  refine (proj1 (proj2 (streamed_hash_is_whole_file_hash image "lib/a.mp4"
                          start _))).
  reflexivity.
Defined.

Lemma generate_not_a_directory_lib :
  isdir (fs start) "lib/a.mp4" = false /\
  generate image "lib/a.mp4" start
  = (Raise (SystemExit 1),
     logged start [Print "lib/a.mp4 is not a directory"]).
Proof.
  split; [reflexivity|].
  apply (generate_not_a_directory image "lib/a.mp4" start). reflexivity.
Defined.

Lemma verify_without_store_lib :
  isfile (fs start) (path_join "lib" DB_FILE) = false /\
  verify image "lib" start
  = (Raise (SystemExit 1),
     logged start [Print "lib/hashmyfiles.db does not exist. Please generate hashes first."]).
Proof.
  split; [reflexivity|].
  apply (verify_without_store image "lib" start). reflexivity.
Defined.

End Library.

(* ===================================================================== *)
(** ** More on the record store *)
(* ===================================================================== *)

Lemma has_key_iff (t : table) (p : string) :
  Sqlite3.has_key t p = true <-> In p (map fst t).
Proof.
  unfold Sqlite3.has_key. rewrite existsb_exists, in_map_iff. split.
  - intros [r [Hr He]]. apply String.eqb_eq in He. now exists r.
  - intros [r [He Hr]]. exists r. split; [exact Hr|]. now apply String.eqb_eq.
Qed.

Lemma has_key_false_iff (t : table) (p : string) :
  Sqlite3.has_key t p = false <-> ~ In p (map fst t).
Proof.
  rewrite <- has_key_iff. destruct (Sqlite3.has_key t p); split; intros H;
    try discriminate; try reflexivity; try (intros H'; discriminate).
  exfalso. now apply H.
Qed.

Lemma duplicate_insert_run (db_file p h : string) (w : world) (t : table) :
  store_table (fs w) db_file = Some t ->
  Sqlite3.has_key t p = true ->
  database.add_hash db_file p h w
  = (Ret tt,
     logged w [Execute db_file Sqlite3.q_insert [p; h];
               Print "SQLite error: UNIQUE constraint failed: hashes.path"]).
Proof.
  unfold store_table. destruct (isfile (fs w) db_file) eqn:Hf; [|discriminate].
  intros Ht Hk. unfold database.add_hash, database.execute_query, bind.
  rewrite (connect_existing _ _ Hf). unfold Sqlite3.execute.
  destruct (data (fs w) db_file) as [bs|[t'|]]; try discriminate.
  injection Ht as ->. simpl. rewrite Hk. simpl.
  unfold logged. now rewrite <- app_assoc.
Qed.

(** X1.  Insert, then look up.  After [add_hash] put a path that had no row
    into a store, the store holds the old rows followed by the new one,
    the existence check finds the path, the listing returns the rows in
    that order, and the answer for every other path is what it was. *)
Theorem add_hash_then_lookup
        (db_file p h : string) (w : world) (t : table) :
  store_table (fs w) db_file = Some t ->
  Sqlite3.has_key t p = false ->
  let w' := snd (database.add_hash db_file p h w) in
  store_table (fs w') db_file = Some (t ++ [(p, h)])%list /\
  fst (database.media_file_exist db_file p w') = Ret true /\
  fst (database.get_hashes db_file w') = Ret (Some (t ++ [(p, h)])%list) /\
  forall q : string,
    q <> p ->
    fst (database.media_file_exist db_file q w')
    = fst (database.media_file_exist db_file q w).
Proof.
  intros Ht Hk w'. subst w'. rewrite (insert_run _ _ h _ Ht Hk). cbn [snd].
  assert (Ht' : store_table
                  (fs (mkWorld (write_data (fs w) db_file
                                  (Sqlite (Some (t ++ [(p, h)])%list)))
                               (trace w ++ [Execute db_file Sqlite3.q_insert [p; h]])))
                  db_file = Some (t ++ [(p, h)])%list).
  { cbn [fs]. apply store_table_write. unfold store_table in Ht.
    now destruct (isfile (fs w) db_file). }
  split; [exact Ht'|]. split; [|split].
  - rewrite (media_file_exist_run _ p _ Ht'). cbn [fst].
    now rewrite has_key_app, String.eqb_refl, orb_true_r.
  - now rewrite (select_all_run _ _ Ht').
  - intros q Hq. rewrite (media_file_exist_run _ q _ Ht').
    rewrite (media_file_exist_run _ q _ Ht). cbn [fst].
    rewrite has_key_app. apply String.eqb_neq in Hq.
    rewrite String.eqb_sym in Hq. now rewrite Hq, orb_false_r.
Qed.

(** X2.  A second insert of a path is refused: [add_hash] on a path that
    has a row prints the error of the primary key and leaves the store, and
    the whole file system, as it was, so the first hash stays. *)
Theorem add_hash_twice_keeps_first
        (db_file p h : string) (w : world) (t : table) :
  store_table (fs w) db_file = Some t ->
  Sqlite3.has_key t p = true ->
  fs (snd (database.add_hash db_file p h w)) = fs w /\
  stdout (snd (database.add_hash db_file p h w))
  = (stdout w ++ ["SQLite error: UNIQUE constraint failed: hashes.path"])%list /\
  fst (database.get_hashes db_file (snd (database.add_hash db_file p h w)))
  = Ret (Some t).
Proof.
  intros Ht Hk. rewrite (duplicate_insert_run _ _ h _ Ht Hk). cbn [snd].
  split; [reflexivity|]. split.
  - now rewrite stdout_logged.
  - now rewrite (@select_all_run db_file (logged w _) t Ht).
Qed.

Lemma create_existing_run (db_file : string) (w : world) (t : table) :
  store_table (fs w) db_file = Some t ->
  database.create_new_database db_file w
  = (Ret tt, logged w [Execute db_file Sqlite3.q_create []]).
Proof.
  unfold store_table. destruct (isfile (fs w) db_file) eqn:Hf; [|discriminate].
  intros Ht. unfold database.create_new_database, database.execute_query, bind.
  rewrite (connect_existing _ _ Hf). unfold Sqlite3.execute.
  destruct (data (fs w) db_file) as [bs|[t'|]]; try discriminate.
  reflexivity.
Qed.

(** X3.  [create_new_database] on a store that holds the table changes
    nothing: the rows stay, no error is printed, and running it again gives
    the same file system again. *)
Theorem create_new_database_keeps_rows (db_file : string) (w : world) (t : table) :
  store_table (fs w) db_file = Some t ->
  let w1 := snd (database.create_new_database db_file w) in
  let w2 := snd (database.create_new_database db_file w1) in
  fs w1 = fs w /\ fs w2 = fs w /\
  stdout w2 = stdout w /\
  fst (database.get_hashes db_file w2) = Ret (Some t).
Proof.
  intros Ht w1 w2. subst w2 w1.
  rewrite (create_existing_run _ _ Ht). cbn [snd].
  rewrite (@create_existing_run db_file (logged w _) t Ht). cbn [snd].
  repeat split.
  - now rewrite !stdout_logged, !app_nil_r.
  - now rewrite (@select_all_run db_file (logged (logged w _) _) t Ht).
Qed.

Lemma create_store_run (db_file : string) (w : world)
      (rs : list (string * node)) :
  find_path (roots (fs w)) db_file = None ->
  create_file (roots (fs w)) db_file = Some rs ->
  database.create_new_database db_file w
  = (Ret tt,
     mkWorld (write_data (write_data (mkFs rs (data (fs w))) db_file (Raw []))
                         db_file (Sqlite (Some [])))
             (trace w ++ [Execute db_file Sqlite3.q_create []])).
Proof.
  intros Hfind Hc.
  unfold database.create_new_database, database.execute_query, bind.
  unfold Sqlite3.connect. rewrite Hfind, Hc.
  unfold Sqlite3.execute. cbn [data write_data].
  rewrite String.eqb_refl. cbn [Sqlite3.load].
  change (Sqlite3.prepare _) with (Some Sqlite3.CreateHashes).
  reflexivity.
Qed.

(** X4.  In a directory that has no store file yet, [create_new_database]
    makes one: afterwards the store file is a regular file that holds the
    empty table, and every other path names what it named before and holds
    what it held. *)
Theorem create_new_database_makes_empty_store (dir_path : string) (w : world) :
  isdir (fs w) dir_path = true ->
  find_path (roots (fs w)) (path_join dir_path DB_FILE) = None ->
  let db_file := path_join dir_path DB_FILE in
  let w' := snd (database.create_new_database db_file w) in
  store_table (fs w') db_file = Some [] /\
  isfile (fs w') db_file = true /\
  fst (database.get_hashes db_file w') = Ret (Some []) /\
  forall q : string,
    q <> db_file ->
    kind_of (find_path (roots (fs w')) q) = kind_of (find_path (roots (fs w)) q) /\
    data (fs w') q = data (fs w) q.
Proof.
  intros Hd Hfind. cbv zeta.
  set (db_file := path_join dir_path DB_FILE) in *.
  unfold isdir in Hd.
  destruct (find_path (roots (fs w)) dir_path) as [[|es]|] eqn:Hdir;
    try discriminate.
  pose proof (@create_file_succeeds _ db_file dir_path DB_FILE es
                (child_name_db_file dir_path) Hdir) as Hsome.
  destruct (create_file (roots (fs w)) db_file) as [rs|] eqn:Hc;
    [clear Hsome|contradiction].
  rewrite (create_store_run _ _ Hfind Hc). cbn [snd fs].
  pose proof (@create_file_kinds db_file _ _ Hc Hfind) as Hk.
  assert (Hf : isfile (write_data (mkFs rs (data (fs w))) db_file (Raw []))
                      db_file = true).
  { rewrite isfile_kind. cbn [roots write_data].
    now rewrite Hk, String.eqb_refl. }
  assert (Ht : store_table
                 (write_data (write_data (mkFs rs (data (fs w))) db_file (Raw []))
                             db_file (Sqlite (Some []))) db_file = Some [])
    by now apply store_table_write.
  split; [exact Ht|]. split; [exact Hf|]. split.
  - match goal with
    | |- context [database.get_hashes db_file ?w1] =>
        now rewrite (@select_all_run db_file w1 [] Ht)
    end.
  - intros q Hq. apply String.eqb_neq in Hq. cbn [roots data write_data].
    now rewrite Hk, !Hq.
Qed.

Lemma NoDup_snoc {A : Type} (l : list A) (x : A) :
  NoDup l -> ~ In x l -> NoDup (l ++ [x]).
Proof.
  induction 1 as [|y l Hy Hl IH]; intros Hx; simpl.
  - constructor; [intros []|constructor].
  - constructor.
    + rewrite in_app_iff. intros [H|[H|[]]]; [contradiction|].
      apply Hx. now left.
    + apply IH. intros H. apply Hx. now right.
Qed.

(** X5.  No operation of the store drops the table or a row of it, and
    none breaks the primary key: after the existence check, the listing,
    an insert or the creation, with whatever path and hash, a store that
    held the table holds the old rows first and at most one row more, and
    paths that were unique in it still are. *)
Theorem store_operations_keep_rows
        (db_file path h : string) (w : world) (t : table) :
  store_table (fs w) db_file = Some t ->
  NoDup (map fst t) ->
  let kept (w' : world) :=
    exists new : table,
      store_table (fs w') db_file = Some (t ++ new)%list /\
      (List.length new <= 1)%nat /\
      NoDup (map fst (t ++ new)%list) in
  kept (snd (database.media_file_exist db_file path w)) /\
  kept (snd (database.get_hashes db_file w)) /\
  kept (snd (database.add_hash db_file path h w)) /\
  kept (snd (database.create_new_database db_file w)).
Proof.
  intros Ht Hnd kept.
  assert (Hsame : forall es, kept (logged w es)).
  { intros es. exists []. rewrite app_nil_r. cbn [fs logged].
    split; [exact Ht|]. split; [simpl; lia|exact Hnd]. }
  split; [|split; [|split]].
  - rewrite (@media_file_exist_run db_file path w t Ht). apply Hsame.
  - rewrite (@select_all_run db_file w t Ht). apply Hsame.
  - destruct (Sqlite3.has_key t path) eqn:Hk.
    + rewrite (@duplicate_insert_run db_file path h w t Ht Hk). apply Hsame.
    + rewrite (@insert_run db_file path h w t Ht Hk). cbn [snd fs].
      exists [(path, h)]. split.
      * apply store_table_write. unfold store_table in Ht.
        now destruct (isfile (fs w) db_file).
      * split; [simpl; lia|]. rewrite map_app. simpl.
        apply NoDup_snoc; [exact Hnd|]. now apply has_key_false_iff.
  - rewrite (@create_existing_run db_file w t Ht). apply Hsame.
Qed.

(* ===================================================================== *)
(** ** What a run leaves alone *)
(* ===================================================================== *)

(** Outside the store file nothing changed: every other path holds what
    it held and names what it named. *)
Definition untouched_outside (db_file : string) (f f' : filesystem) : Prop :=
  forall q : string,
    q <> db_file ->
    data f' q = data f q /\
    kind_of (find_path (roots f') q) = kind_of (find_path (roots f) q).

Lemma untouched_refl (db_file : string) (f : filesystem) :
  untouched_outside db_file f f.
Proof. intros q _. now split. Qed.

Lemma untouched_trans (db_file : string) (f g h : filesystem) :
  untouched_outside db_file f g -> untouched_outside db_file g h ->
  untouched_outside db_file f h.
Proof.
  intros H1 H2 q Hq. destruct (H1 q Hq) as [A1 B1]. destruct (H2 q Hq) as [A2 B2].
  split; congruence.
Qed.

Section Frames.

Variable R : filesystem -> filesystem -> Prop.
Hypothesis R_refl : forall f, R f f.
Hypothesis R_trans : forall f g h, R f g -> R g h -> R f h.

(** A computation keeps [R] when the file system it leaves is related to
    the one it found, whether it returns or raises. *)
Definition keeps {A : Type} (c : M A) : Prop :=
  forall (w : world) (r : result A) (w' : world),
    c w = (r, w') -> R (fs w) (fs w').

Lemma keeps_ret {A : Type} (a : A) : keeps (ret a).
Proof. intros w r w' [= <- <-]. apply R_refl. Qed.

Lemma keeps_raise {A : Type} (e : exn) : keeps (@raise A e).
Proof. intros w r w' [= <- <-]. apply R_refl. Qed.

Lemma keeps_log (e : event) : keeps (log e).
Proof. intros w r w' [= <- <-]. apply R_refl. Qed.

Lemma keeps_pure {A : Type} (g : world -> A) :
  keeps (fun w => (Ret (g w), w)).
Proof. intros w r w' [= <- <-]. apply R_refl. Qed.

Lemma keeps_bind {A B : Type} (c : M A) (k : A -> M B) :
  keeps c -> (forall a, keeps (k a)) -> keeps (bind c k).
Proof.
  intros Hc Hk w r w'. unfold bind.
  destruct (c w) as [[a|e] w1] eqn:E; intros H.
  - apply (R_trans (Hc _ _ _ E)). exact (Hk a _ _ _ H).
  - injection H as <- <-. exact (Hc _ _ _ E).
Qed.

Lemma keeps_for_each {A : Type} (l : list A) (body : A -> M unit) :
  (forall x, keeps (body x)) -> keeps (for_each l body).
Proof.
  intros Hb. induction l as [|x l IH]; simpl.
  - apply keeps_ret.
  - apply keeps_bind; [apply Hb|intros _; exact IH].
Qed.

Lemma keeps_for_acc {A S : Type} (l : list A) (body : A -> S -> M S) :
  (forall x acc, keeps (body x acc)) -> forall acc, keeps (for_acc l acc body).
Proof.
  intros Hb. induction l as [|x l IH]; intros acc; simpl.
  - apply keeps_ret.
  - apply keeps_bind; [apply Hb|intros acc'; apply IH].
Qed.

End Frames.

Lemma execute_query_untouched (db_file query : string)
      (parameters : option (list string)) :
  keeps (untouched_outside db_file)
        (database.execute_query db_file query parameters).
Proof.
  intros w r w'. unfold database.execute_query.
  assert (Hconn : forall f1, Sqlite3.connect (fs w) db_file = inr f1 ->
                             untouched_outside db_file (fs w) f1).
  { unfold Sqlite3.connect. intros f1.
    destruct (find_path (roots (fs w)) db_file) as [[|es]|] eqn:Hfind;
      try discriminate.
    - intros [= <-]. apply untouched_refl.
    - destruct (create_file (roots (fs w)) db_file) as [rs|] eqn:Hc;
        [|discriminate].
      intros [= <-] q Hq. pose proof (@create_file_kinds db_file _ _ Hc Hfind q) as Hk.
      apply String.eqb_neq in Hq. cbn [roots data write_data].
      now rewrite Hk, Hq. }
  destruct (Sqlite3.connect (fs w) db_file) as [e|f1].
  - intros [= <- <-]. apply untouched_refl.
  - specialize (Hconn f1 eq_refl).
    assert (Hexec : forall rows f2,
               Sqlite3.execute f1 db_file query
                 (match parameters with Some ps => ps | None => [] end)
               = inr (rows, f2) -> untouched_outside db_file f1 f2).
    { unfold Sqlite3.execute. intros rows f2.
      destruct (Sqlite3.load (data f1 db_file)) as [e|d]; [discriminate|].
      destruct (Sqlite3.prepare query) as [s|]; [|discriminate].
      destruct (Sqlite3.step s _ d) as [e|[rows' [d'|]]]; [discriminate| |].
      - intros [= <- <-] q Hq. apply String.eqb_neq in Hq.
        cbn [roots data write_data]. now rewrite Hq.
      - intros [= <- <-]. apply untouched_refl. }
    destruct (Sqlite3.execute f1 db_file query _) as [e|[rows f2]].
    + intros [= <- <-]. exact Hconn.
    + intros [= <- <-]. cbn [fs].
      exact (untouched_trans Hconn (Hexec rows f2 eq_refl)).
Qed.

Section Untouched.

Variable db_image : database -> list byte.

Lemma hash_keeps (R : filesystem -> filesystem -> Prop)
      (R_refl : forall f, R f f) (path : string) :
  keeps R (generate_sha256_hash db_image path).
Proof.
  intros w r w' H. destruct (hash_world db_image path w) as (r0 & Hh & _).
  rewrite Hh in H. injection H as <- <-. apply R_refl.
Qed.

Lemma generate_keeps (dir_path : string) :
  keeps (untouched_outside (path_join dir_path DB_FILE))
        (generate db_image dir_path).
Proof.
  set (db_file := path_join dir_path DB_FILE).
  pose proof (@untouched_refl db_file) as Hr.
  pose proof (@untouched_trans db_file) as Ht.
  assert (Hq : forall q ps, keeps (untouched_outside db_file)
                              (database.execute_query db_file q ps))
    by (intros; apply execute_query_untouched).
  assert (Hret : forall (A : Type) (a : A),
             keeps (untouched_outside db_file) (ret a))
    by (intros; now apply keeps_ret).
  assert (Hlog : forall e, keeps (untouched_outside db_file) (log e))
    by (intros; now apply keeps_log).
  assert (Hexit : forall (A : Type) (e : exn),
             keeps (untouched_outside db_file) (@raise A e))
    by (intros; now apply keeps_raise).
  assert (Hbind : forall (A B : Type) (c : M A) (k : A -> M B),
             keeps (untouched_outside db_file) c ->
             (forall a, keeps (untouched_outside db_file) (k a)) ->
             keeps (untouched_outside db_file) (bind c k))
    by (intros; now apply keeps_bind).
  unfold generate, database.create_new_database, database.media_file_exist,
    database.add_hash, os_path_isdir, os_path_isfile,
    find_files_with_extension, print, sys_exit.
  fold db_file.
  repeat first
    [ apply Hret | apply Hlog | apply Hexit | apply Hq
    | now apply keeps_pure | now apply hash_keeps
    | apply keeps_for_each; [exact Hr|exact Ht|]
    | apply Hbind
    | match goal with
      | |- keeps _ (if negb ?b then _ else _) => destruct b; cbn [negb]
      | |- keeps _ (if ?b then _ else _) => destruct b
      end
    | intro ].
Qed.

(** X6.  [generate] writes to the store file and to nothing else: every
    other path holds after the run the bytes it held before, and names
    what it named, however the run ends. *)
Theorem generate_touches_only_the_store
        (dir_path : string) (w : world) (q : string) :
  q <> path_join dir_path DB_FILE ->
  data (fs (snd (generate db_image dir_path w))) q = data (fs w) q /\
  kind_of (find_path (roots (fs (snd (generate db_image dir_path w)))) q)
  = kind_of (find_path (roots (fs w)) q).
Proof.
  intros Hq.
  destruct (generate db_image dir_path w) as [r w'] eqn:E.
  exact (@generate_keeps dir_path w r w' E q Hq).
Qed.

End Untouched.

(* ===================================================================== *)
(** ** What a run of [generate] stores *)
(* ===================================================================== *)

Section Stored.

Variable db_image : database -> list byte.

(** The row [generate] makes for a media file. *)
Definition new_row (f : filesystem) (m : string) : row :=
  (m, hashlib.hexdigest (file_bytes db_image f m)).

(** The rows a walk adds to a table: one for each media file that has no
    row yet, the first time the walk meets it. *)
Fixpoint new_rows (f : filesystem) (t : table) (ms : list string) : table :=
  match ms with
  | [] => []
  | m :: r =>
      if Sqlite3.has_key t m then new_rows f t r
      else new_row f m :: new_rows f (t ++ [new_row f m])%list r
  end.

Lemma new_rows_ext (f g : filesystem) (ms : list string) :
  (forall m, In m ms -> data f m = data g m) ->
  forall t, new_rows f t ms = new_rows g t ms.
Proof.
  induction ms as [|m ms IH]; intros Hd t; simpl; [reflexivity|].
  assert (Hm : new_row f m = new_row g m).
  { unfold new_row, file_bytes. now rewrite (Hd m (or_introl eq_refl)). }
  rewrite Hm. destruct (Sqlite3.has_key t m); rewrite IH; auto;
    intros k Hk; apply Hd; now right.
Qed.

Lemma new_rows_spec (f : filesystem) (ms : list string) :
  forall (t : table) (p h : string),
    In (p, h) (new_rows f t ms) <->
    In p ms /\ Sqlite3.has_key t p = false /\
    h = hashlib.hexdigest (file_bytes db_image f p).
Proof.
  induction ms as [|m ms IH]; intros t p h; simpl.
  - split; [contradiction|]. now intros [[] _].
  - destruct (Sqlite3.has_key t m) eqn:Hk.
    + rewrite IH. split.
      * intros (Hin & Hp & Hh). now split; [right|split].
      * intros ([<-|Hin] & Hp & Hh); [congruence|now split].
    + simpl. unfold new_row at 1 2. rewrite IH, has_key_app. split.
      * intros [[= <- <-]|(Hin & Hp & Hh)].
        -- now split; [left|split].
        -- apply orb_false_elim in Hp as [Hp _]. now split; [right|split].
      * intros ([<-|Hin] & Hp & Hh).
        -- left. now rewrite Hh.
        -- destruct (String.eqb m p) eqn:Hmp.
           ++ apply String.eqb_eq in Hmp. subst p. left. now rewrite Hh.
           ++ right. split; [exact Hin|]. split; [|exact Hh].
              now rewrite Hp.
Qed.

Lemma new_rows_unique (f : filesystem) (ms : list string) :
  forall t : table, NoDup (map fst t) -> NoDup (map fst (t ++ new_rows f t ms)%list).
Proof.
  induction ms as [|m ms IH]; intros t Hnd; simpl.
  - now rewrite app_nil_r.
  - destruct (Sqlite3.has_key t m) eqn:Hk; [now apply IH|].
    change (new_row f m :: new_rows f (t ++ [new_row f m])%list ms)
      with ([new_row f m] ++ new_rows f (t ++ [new_row f m])%list ms)%list.
    rewrite app_assoc. apply IH. rewrite map_app. simpl.
    apply NoDup_snoc; [exact Hnd|]. now apply has_key_false_iff.
Qed.

(** The body of the loop, in full, on a store that holds the table. *)
Lemma generate_step_run (db_file m : string) (w : world) (t : table) :
  store_table (fs w) db_file = Some t ->
  generate_step db_image db_file m w
  = if Sqlite3.has_key t m then
      (Ret tt, logged w [Execute db_file Sqlite3.q_select_path [m]])
    else
      match find_path (roots (fs w)) m with
      | Some File =>
          (Ret tt,
           mkWorld (write_data (fs w) db_file
                               (Sqlite (Some (t ++ [new_row (fs w) m])%list)))
                   (trace w ++ [Execute db_file Sqlite3.q_select_path [m];
                                Print ("Generate hash for: " ++ m);
                                Open m;
                                Execute db_file Sqlite3.q_insert
                                        [m; snd (new_row (fs w) m)]]))
      | Some (Dir _) =>
          (Raise (IsADirectoryError m),
           logged w [Execute db_file Sqlite3.q_select_path [m];
                     Print ("Generate hash for: " ++ m);
                     Open m])
      | None =>
          (Raise (FileNotFoundError m),
           logged w [Execute db_file Sqlite3.q_select_path [m];
                     Print ("Generate hash for: " ++ m);
                     Open m])
      end.
Proof.
  intros Ht. unfold generate_step.
  rewrite (bind_ret _ _ _ (@media_file_exist_run db_file m w t Ht)).
  destruct (Sqlite3.has_key t m) eqn:Hk; cbn [negb]; [reflexivity|].
  unfold bind at 1. rewrite print_run, logged_logged.
  destruct (find_path (roots (fs w)) m) as [[|es]|] eqn:Hfind.
  - assert (Hf : isfile (fs (logged w ([Execute db_file Sqlite3.q_select_path [m]]
                                         ++ [Print ("Generate hash for: " ++ m)])))
                        m = true).
    { unfold isfile. cbn [fs logged]. now rewrite Hfind. }
    rewrite (bind_ret _ _ _ (generate_sha256_hash_file db_image m _ Hf)).
    rewrite logged_logged.
    rewrite (@insert_run db_file m _ (logged w _) t Ht Hk).
    unfold new_row, hashlib.hexdigest, logged. cbn [fs trace snd].
    now rewrite <- !app_assoc.
  - unfold generate_sha256_hash, open_rb, bind, log, logged. cbn [fs trace].
    rewrite Hfind. now rewrite <- !app_assoc.
  - unfold generate_sha256_hash, open_rb, bind, log, logged. cbn [fs trace].
    rewrite Hfind. now rewrite <- !app_assoc.
Qed.

(** The loop over media files that are all regular files. *)
Lemma generate_loop_run (db_file : string) (ms : list string) :
  forall (w : world) (t : table),
    store_table (fs w) db_file = Some t ->
    (forall m, In m ms -> m <> db_file /\ isfile (fs w) m = true) ->
    exists (w' : world) (es : list event),
      for_each ms (generate_step db_image db_file) w = (Ret tt, w') /\
      trace w' = (trace w ++ es)%list /\
      opens es = map fst (new_rows (fs w) t ms) /\
      roots (fs w') = roots (fs w) /\
      (forall q, q <> db_file -> data (fs w') q = data (fs w) q) /\
      store_table (fs w') db_file = Some (t ++ new_rows (fs w) t ms)%list.
Proof.
  induction ms as [|m ms IH]; intros w t Ht Hms.
  - exists w, []. simpl. rewrite !app_nil_r. now repeat split.
  - destruct (Hms m (or_introl eq_refl)) as [Hne Hf].
    assert (Hfind : find_path (roots (fs w)) m = Some File).
    { unfold isfile in Hf.
      now destruct (find_path (roots (fs w)) m) as [[|?]|]. }
    simpl for_each. simpl new_rows.
    pose proof (@generate_step_run db_file m w t Ht) as Hs. rewrite Hfind in Hs.
    destruct (Sqlite3.has_key t m) eqn:Hk.
    + rewrite (bind_ret _ _ _ Hs).
      destruct (IH (logged w [Execute db_file Sqlite3.q_select_path [m]]) t Ht)
        as (w' & es & Hl & Htr & Hop & Hr & Hd & Hst).
      { intros k Hkin. apply Hms. now right. }
      exists w', (Execute db_file Sqlite3.q_select_path [m] :: es).
      split; [exact Hl|]. split.
      { rewrite Htr. cbn [trace logged]. now rewrite <- app_assoc. }
      now repeat split.
    + rewrite (bind_ret _ _ _ Hs).
      set (w1 := mkWorld _ _) in *.
      assert (Ht1 : store_table (fs w1) db_file
                    = Some (t ++ [new_row (fs w) m])%list).
      { apply store_table_write. unfold store_table in Ht.
        now destruct (isfile (fs w) db_file). }
      destruct (IH w1 _ Ht1) as (w' & es & Hl & Htr & Hop & Hr & Hd & Hst).
      { intros k Hkin. destruct (Hms k (or_intror Hkin)) as [Hkne Hkf].
        split; [exact Hkne|exact Hkf]. }
      assert (Hext : forall t0, new_rows (fs w1) t0 ms = new_rows (fs w) t0 ms).
      { apply new_rows_ext. intros k Hkin.
        destruct (Hms k (or_intror Hkin)) as [Hkne _].
        apply String.eqb_neq in Hkne. subst w1. cbn [fs data write_data].
        now rewrite Hkne. }
      rewrite Hext in Hop, Hst.
      eexists w', _. split; [exact Hl|]. split.
      { rewrite Htr. subst w1. cbn [trace]. rewrite <- app_assoc. reflexivity. }
      split.
      { rewrite opens_app. simpl. now rewrite Hop. }
      split; [exact Hr|]. split.
      { intros q Hq. rewrite (Hd q Hq). subst w1. cbn [fs data write_data].
        apply String.eqb_neq in Hq. now rewrite Hq. }
      rewrite Hst. now rewrite <- app_assoc.
Qed.

End Stored.

(* ===================================================================== *)
(** ** The walk after the store file was created *)
(* ===================================================================== *)

Lemma media_paths_app (exts : list string)
      (a b : list (string * list string * list string)) :
  media_paths exts (a ++ b) = (media_paths exts a ++ media_paths exts b)%list.
Proof. apply flat_map_app. Qed.

Lemma add_file_dir (p top : string) (n n' : node) :
  add_file top n p = Some n' ->
  exists es es', n = Dir es /\ n' = Dir es'.
Proof.
  destruct n as [|es]; [discriminate|]. simpl.
  destruct (child_name top p).
  - intros [= <-]. now eexists; eexists.
  - destruct (first_update _ es); [|discriminate].
    intros [= <-]. now eexists; eexists.
Qed.

Section WalkAfterAdd.

Variable p : string.
Variable exts : list string.

(** The name the new file gets is no media name. *)
Hypothesis new_name_is_plain :
  forall d nm : string,
    child_name d p = Some nm -> PyStr.endswith_any nm exts = false.

Definition subwalk (mk : string -> string) (e : string * node)
  : list (string * list string * list string) :=
  match snd e with
  | Dir _ => os_walk (mk (fst e)) (snd e)
  | File => []
  end.

Definition add_keeps_media (n : node) : Prop :=
  forall (top : string) (n' : node),
    add_file top n p = Some n' ->
    media_paths exts (os_walk top n') = media_paths exts (os_walk top n).

Lemma entries_keep_media (mk : string -> string) (es : list (string * node)) :
  Forall (fun e => add_keeps_media (snd e)) es ->
  forall es',
    first_update (fun e => option_map (pair (fst e))
                             (add_file (mk (fst e)) (snd e) p)) es = Some es' ->
    dirnames es' = dirnames es /\
    filenames es' = filenames es /\
    media_paths exts (flat_map (subwalk mk) es')
    = media_paths exts (flat_map (subwalk mk) es).
Proof.
  induction 1 as [|[nm c] es Hc _ IH]; intros es' Hu; [discriminate|].
  simpl in Hu, Hc.
  destruct (add_file (mk nm) c p) as [c'|] eqn:Hadd; simpl in Hu.
  - injection Hu as <-.
    destruct (add_file_dir _ _ _ Hadd) as (l & l' & -> & ->).
    split; [reflexivity|]. split; [reflexivity|].
    change (flat_map (subwalk mk) ((nm, Dir l') :: es))
      with (os_walk (mk nm) (Dir l') ++ flat_map (subwalk mk) es)%list.
    change (flat_map (subwalk mk) ((nm, Dir l) :: es))
      with (os_walk (mk nm) (Dir l) ++ flat_map (subwalk mk) es)%list.
    rewrite !media_paths_app. f_equal. now apply Hc.
  - destruct (first_update _ es) as [es1|]; [|discriminate].
    injection Hu as <-. destruct (IH es1 eq_refl) as (Hd & Hf & Hm).
    destruct c as [|l].
    + change (dirnames ((nm, File) :: es1)) with (dirnames es1).
      change (dirnames ((nm, File) :: es)) with (dirnames es).
      change (filenames ((nm, File) :: es1)) with (nm :: filenames es1).
      change (filenames ((nm, File) :: es)) with (nm :: filenames es).
      change (flat_map (subwalk mk) ((nm, File) :: es1))
        with (flat_map (subwalk mk) es1).
      change (flat_map (subwalk mk) ((nm, File) :: es))
        with (flat_map (subwalk mk) es).
      now rewrite Hd, Hf, Hm.
    + change (dirnames ((nm, Dir l) :: es1)) with (nm :: dirnames es1).
      change (dirnames ((nm, Dir l) :: es)) with (nm :: dirnames es).
      change (filenames ((nm, Dir l) :: es1)) with (filenames es1).
      change (filenames ((nm, Dir l) :: es)) with (filenames es).
      change (flat_map (subwalk mk) ((nm, Dir l) :: es1))
        with (os_walk (mk nm) (Dir l) ++ flat_map (subwalk mk) es1)%list.
      change (flat_map (subwalk mk) ((nm, Dir l) :: es))
        with (os_walk (mk nm) (Dir l) ++ flat_map (subwalk mk) es)%list.
      now rewrite Hd, Hf, !media_paths_app, Hm.
Qed.

Lemma add_file_keeps_media (n : node) : add_keeps_media n.
Proof.
  induction n as [|es IH] using node_tree_ind; intros top n' Hadd.
  - discriminate.
  - simpl in Hadd. destruct (child_name top p) as [nm|] eqn:Hc.
    + injection Hadd as <-. cbn [os_walk].
      change (flat_map _ (es ++ [(nm, File)]))
        with (flat_map (subwalk (path_join top)) (es ++ [(nm, File)])).
      change (flat_map _ es) with (flat_map (subwalk (path_join top)) es).
      rewrite flat_map_app. simpl flat_map at 2. rewrite app_nil_r.
      unfold media_paths at 1 2. cbn [flat_map]. f_equal.
      unfold dirnames, filenames. rewrite !filter_app, !map_app. simpl.
      rewrite filter_app. simpl. rewrite (new_name_is_plain _ Hc).
      now rewrite !app_nil_r.
    + destruct (first_update _ es) as [es1|] eqn:Hes; [|discriminate].
      injection Hadd as <-. cbn [os_walk].
      destruct (@entries_keep_media (path_join top) es IH es1 Hes) as (Hd & Hf & Hm).
      rewrite Hd, Hf.
      change (flat_map _ es1) with (flat_map (subwalk (path_join top)) es1).
      change (flat_map _ es) with (flat_map (subwalk (path_join top)) es).
      unfold media_paths at 1 2. cbn [flat_map]. f_equal. exact Hm.
Qed.

(** Where a path led before the file was added, it leads after: to the
    same node, or to that node with the file added below it. *)
Definition add_keeps_nodes (n : node) : Prop :=
  forall (top : string) (n' : node) (q : string) (x : node),
    add_file top n p = Some n' ->
    find_node top n p = None ->
    find_node top n q = Some x ->
    exists x', find_node top n' q = Some x' /\
               (x' = x \/ add_file q x p = Some x').

Lemma entries_keep_nodes (mk : string -> string) (es : list (string * node)) :
  Forall (fun e => add_keeps_nodes (snd e)) es ->
  forall es' q x,
    first_update (fun e => option_map (pair (fst e))
                             (add_file (mk (fst e)) (snd e) p)) es = Some es' ->
    first_some (fun e => find_node (mk (fst e)) (snd e) p) es = None ->
    first_some (fun e => find_node (mk (fst e)) (snd e) q) es = Some x ->
    exists x',
      first_some (fun e => find_node (mk (fst e)) (snd e) q) es' = Some x' /\
      (x' = x \/ add_file q x p = Some x').
Proof.
  induction 1 as [|[nm c] es Hc _ IH]; intros es' q x Hu Hn Hq; [discriminate|].
  simpl in Hu, Hn, Hq, Hc.
  destruct (find_node (mk nm) c p) eqn:Hcp; [discriminate|].
  destruct (add_file (mk nm) c p) as [c'|] eqn:Hadd; simpl in Hu.
  - injection Hu as <-. simpl.
    destruct (find_node (mk nm) c q) as [y|] eqn:Hcq.
    + injection Hq as ->.
      destruct (Hc _ _ _ _ Hadd Hcp Hcq) as (x' & Hx' & Hrel).
      exists x'. now rewrite Hx'.
    + pose proof (@add_file_keeps_kinds p c (mk nm) c' Hadd Hcp q) as Hk.
      rewrite Hcq in Hk.
      destruct (String.eqb q p) eqn:Hqp.
      * apply String.eqb_eq in Hqp. subst q. congruence.
      * destruct (find_node (mk nm) c' q) as [[|?]|]; try discriminate.
        exists x. now split; [|left].
  - destruct (first_update _ es) as [es1|]; [|discriminate].
    injection Hu as <-. simpl.
    destruct (find_node (mk nm) c q) as [y|].
    + injection Hq as ->. exists x. now split; [|left].
    + now apply IH.
Qed.

Lemma add_file_keeps_nodes (n : node) : add_keeps_nodes n.
Proof.
  induction n as [|es IH] using node_tree_ind; intros top n' q x Hadd Hnone Hq.
  - discriminate.
  - simpl in Hnone, Hq.
    destruct (String.eqb top p) eqn:Htp; [discriminate|].
    destruct (String.eqb top q) eqn:Htq.
    + injection Hq as <-. apply String.eqb_eq in Htq. subst q.
      exists n'. split; [|now right].
      destruct (add_file_dir _ _ _ Hadd) as (l & l' & _ & ->).
      simpl. now rewrite String.eqb_refl.
    + simpl in Hadd. destruct (child_name top p) as [nm|] eqn:Hc.
      * injection Hadd as <-. simpl. rewrite Htq, first_some_app.
        exists x. split; [|now left].
        match goal with
        | H : first_some ?f es = Some x |- context [first_some ?g es] =>
            change (first_some g es) with (first_some f es); now rewrite H
        end.
      * destruct (first_update _ es) as [es1|] eqn:Hes; [|discriminate].
        injection Hadd as <-. simpl. rewrite Htq.
        now apply (@entries_keep_nodes (path_join top) es IH es1 q x Hes Hnone).
Qed.

Lemma create_file_keeps_walk (rs rs' : list (string * node)) (d : string) :
  create_file rs p = Some rs' ->
  find_path rs p = None ->
  media_paths exts (match find_path rs' d with
                    | Some n => os_walk d n
                    | None => []
                    end)
  = media_paths exts (match find_path rs d with
                      | Some n => os_walk d n
                      | None => []
                      end).
Proof.
  intros Hc Hn. unfold create_file, find_path in *.
  destruct (first_some (fun e => find_node (fst e) (snd e) d) rs) as [x|] eqn:Hd.
  - assert (HP : Forall (fun e => add_keeps_nodes (snd e)) rs)
      by (apply Forall_forall; intros e _; apply add_file_keeps_nodes).
    destruct (@entries_keep_nodes (fun nm => nm) rs HP rs' d x Hc Hn Hd)
      as (x' & Hx' & [->|Hadd]).
    + now rewrite Hx'.
    + rewrite Hx'. now apply add_file_keeps_media.
  - pose proof (@create_file_kinds p rs rs' Hc Hn d) as Hk.
    unfold find_path in Hk. rewrite Hd in Hk.
    destruct (String.eqb d p) eqn:Hdp.
    + apply String.eqb_eq in Hdp. subst d.
      destruct (first_some _ rs') as [[|?]|]; try discriminate. reflexivity.
    + destruct (first_some _ rs') as [[|?]|]; try discriminate. reflexivity.
Qed.

End WalkAfterAdd.

(* ===================================================================== *)
(** ** Whole runs of [generate] *)
(* ===================================================================== *)

Lemma db_name_is_plain (dir_path d nm : string) :
  child_name d (path_join dir_path DB_FILE) = Some nm ->
  PyStr.endswith_any nm MEDIA_EXTENSIONS = false.
Proof.
  intros Hc. apply child_name_join in Hc.
  destruct (PyStr.endswith_any nm MEDIA_EXTENSIONS) eqn:Hm; [|reflexivity].
  exfalso. exact (@media_path_is_not_db_file d nm dir_path Hm Hc).
Qed.

Lemma media_paths_not_db_file
      (dir_path m : string) (triples : list (string * list string * list string)) :
  In m (media_paths MEDIA_EXTENSIONS triples) -> m <> path_join dir_path DB_FILE.
Proof.
  rewrite media_paths_walked. intros Hin.
  apply in_map_iff in Hin as [[root name] [<- Hin]].
  apply filter_In in Hin as [_ Hm]. now apply media_path_is_not_db_file.
Qed.

Lemma isfile_untouched (db_file : string) (f f' : filesystem) (q : string) :
  untouched_outside db_file f f' -> q <> db_file -> isfile f' q = isfile f q.
Proof.
  intros H Hq. rewrite !isfile_kind. now rewrite (proj2 (H q Hq)).
Qed.

Section Runs.

Variable db_image : database -> list byte.

(** The store before the walk, in a directory without a store file. *)
Lemma prepare_fresh_store (dir_path : string) (w : world) :
  isdir (fs w) dir_path = true ->
  find_path (roots (fs w)) (path_join dir_path DB_FILE) = None ->
  exists w0 : world,
    prepare_store (path_join dir_path DB_FILE) w = (Ret tt, w0) /\
    store_table (fs w0) (path_join dir_path DB_FILE) = Some [] /\
    trace w0
    = (trace w
         ++ [Print (path_join dir_path DB_FILE
                      ++ " does not exist. Creating a new database..." ++ nl);
             Execute (path_join dir_path DB_FILE) Sqlite3.q_create []])%list /\
    untouched_outside (path_join dir_path DB_FILE) (fs w) (fs w0) /\
    media_paths MEDIA_EXTENSIONS (walk (fs w0) dir_path)
    = media_paths MEDIA_EXTENSIONS (walk (fs w) dir_path).
Proof.
  set (db_file := path_join dir_path DB_FILE). intros Hd Hfind.
  assert (Hf : isfile (fs w) db_file = false)
    by (unfold isfile; now rewrite Hfind).
  unfold isdir in Hd.
  destruct (find_path (roots (fs w)) dir_path) as [[|es]|] eqn:Hdir;
    try discriminate.
  pose proof (@create_file_succeeds _ db_file dir_path DB_FILE es
                (child_name_db_file dir_path) Hdir) as Hsome.
  destruct (create_file (roots (fs w)) db_file) as [rs|] eqn:Hc;
    [clear Hsome|contradiction].
  pose proof (@create_file_kinds db_file _ _ Hc Hfind) as Hk.
  unfold prepare_store, bind at 1, os_path_isfile. rewrite Hf.
  unfold bind at 1. rewrite print_run.
  rewrite (@create_store_run db_file (logged w _) rs Hfind Hc).
  eexists. split; [reflexivity|]. cbn [fs trace logged]. split; [|split; [|split]].
  - apply store_table_write. rewrite isfile_kind. cbn [roots write_data].
    now rewrite Hk, String.eqb_refl.
  - now rewrite <- app_assoc.
  - intros q Hq. apply String.eqb_neq in Hq. cbn [roots data write_data].
    now rewrite Hk, !Hq.
  - unfold walk. cbn [roots write_data].
    apply (@create_file_keeps_walk db_file MEDIA_EXTENSIONS
             (db_name_is_plain dir_path) _ _ dir_path Hc Hfind).
Qed.

(** A run over a directory whose media files are all regular files, with
    the store absent or holding the table. *)
Lemma generate_run (dir_path : string) (w : world) (t0 : table) :
  isdir (fs w) dir_path = true ->
  (find_path (roots (fs w)) (path_join dir_path DB_FILE) = None /\ t0 = []) \/
  store_table (fs w) (path_join dir_path DB_FILE) = Some t0 ->
  (forall m, In m (media_paths MEDIA_EXTENSIONS (walk (fs w) dir_path)) ->
             isfile (fs w) m = true) ->
  exists (w1 : world) (es : list event),
    generate db_image dir_path w = (Raise (SystemExit 0), w1) /\
    trace w1 = (trace w ++ es)%list /\
    opens es
    = map fst (new_rows db_image (fs w) t0
                        (media_paths MEDIA_EXTENSIONS (walk (fs w) dir_path))) /\
    store_table (fs w1) (path_join dir_path DB_FILE)
    = Some (t0 ++ new_rows db_image (fs w) t0
                           (media_paths MEDIA_EXTENSIONS (walk (fs w) dir_path)))%list.
Proof.
  set (db_file := path_join dir_path DB_FILE).
  set (ms := media_paths MEDIA_EXTENSIONS (walk (fs w) dir_path)).
  intros Hd Hstore Hreg.
  assert (Hprep : exists (w0 : world) (es0 : list event),
             prepare_store db_file w = (Ret tt, w0) /\
             store_table (fs w0) db_file = Some t0 /\
             trace w0 = (trace w ++ es0)%list /\ opens es0 = [] /\
             untouched_outside db_file (fs w) (fs w0) /\
             media_paths MEDIA_EXTENSIONS (walk (fs w0) dir_path) = ms).
  { destruct Hstore as [[Hfind ->]|Ht0].
    - destruct (prepare_fresh_store dir_path w Hd Hfind)
        as (w0 & Hp & Hs & Htr & Hu & Hw).
      exists w0. eexists. split; [exact Hp|]. split; [exact Hs|].
      split; [exact Htr|]. now split; [|split].
    - exists (logged w [Print (db_file ++ " exists. Will look for new files..." ++ nl)]).
      eexists. split; [apply prepare_store_existing; now apply (isfile_of_store _ _ Ht0)|].
      split; [exact Ht0|]. split; [reflexivity|]. split; [reflexivity|].
      split; [apply untouched_refl|reflexivity]. }
  destruct Hprep as (w0 & es0 & Hp & Ht & Htr0 & Hop0 & Hu & Hw).
  rewrite (generate_unfold db_image _ _ Hd). fold db_file.
  rewrite (bind_ret _ _ _ Hp).
  rewrite (bind_ret _ _ _ (find_files_run dir_path _ w0)). rewrite Hw.
  assert (Hne : forall m, In m ms -> m <> db_file)
    by (intros m Hm; exact (@media_paths_not_db_file dir_path m _ Hm)).
  destruct (@generate_loop_run db_image db_file ms w0 t0 Ht)
    as (w' & es & Hl & Htr & Hop & _ & _ & Hst).
  { intros m Hm. split; [now apply Hne|].
    rewrite (@isfile_untouched db_file _ _ m Hu (Hne m Hm)). now apply Hreg. }
  assert (Hext : new_rows db_image (fs w0) t0 ms = new_rows db_image (fs w) t0 ms).
  { apply new_rows_ext. intros m Hm. exact (proj1 (Hu m (Hne m Hm))). }
  rewrite Hext in Hop, Hst.
  rewrite (bind_ret _ _ _ Hl).
  unfold bind, print, log, sys_exit, raise.
  eexists. exists (es0 ++ es ++ [Print "Done"])%list.
  split; [reflexivity|]. cbn [fs trace]. split; [|split].
  - rewrite Htr, Htr0. now rewrite <- !app_assoc.
  - rewrite !opens_app, Hop0, Hop. simpl. now rewrite app_nil_r.
  - exact Hst.
Qed.

(** X7.  What a run of [generate] stores.  Over a directory whose media
    files are all regular files, with the store absent or holding the
    table, the run ends with status 0; the store then holds the rows it
    held, in their order, followed by one new row for each media file that
    had none, with the SHA-256 of the file's bytes; and the files opened are
    exactly the files of the new rows. *)
Theorem generate_stores_new_rows (dir_path : string) (w : world) (t0 : table) :
  isdir (fs w) dir_path = true ->
  (find_path (roots (fs w)) (path_join dir_path DB_FILE) = None /\ t0 = []) \/
  store_table (fs w) (path_join dir_path DB_FILE) = Some t0 ->
  (forall m, In m (media_paths MEDIA_EXTENSIONS (walk (fs w) dir_path)) ->
             isfile (fs w) m = true) ->
  let ms := media_paths MEDIA_EXTENSIONS (walk (fs w) dir_path) in
  let new := new_rows db_image (fs w) t0 ms in
  let w1 := snd (generate db_image dir_path w) in
  fst (generate db_image dir_path w) = Raise (SystemExit 0) /\
  store_table (fs w1) (path_join dir_path DB_FILE) = Some (t0 ++ new)%list /\
  opened w1 = (opened w ++ map fst new)%list /\
  (NoDup (map fst t0) -> NoDup (map fst (t0 ++ new)%list)) /\
  forall p h : string,
    In (p, h) new <->
    In p ms /\ Sqlite3.has_key t0 p = false /\
    h = hashlib.hexdigest (file_bytes db_image (fs w) p).
Proof.
  intros Hd Hstore Hreg ms new w1. subst w1.
  destruct (@generate_run dir_path w t0 Hd Hstore Hreg)
    as (w1 & es & Hrun & Htr & Hop & Hst).
  rewrite Hrun. cbn [fst snd]. fold ms in Hop, Hst. fold new in Hop, Hst.
  split; [reflexivity|]. split; [exact Hst|]. split; [|split].
  - unfold opened. now rewrite Htr, opens_app, Hop.
  - apply new_rows_unique.
  - apply new_rows_spec.
Qed.

End Runs.

(* ===================================================================== *)
(** ** [generate], then [verify]; and what [generate] opens *)
(* ===================================================================== *)

Section RoundTrip.

Variable db_image : database -> list byte.

Lemma classify_untouched (db_file : string) (f f' : filesystem) (r : row) :
  untouched_outside db_file f f' -> fst r <> db_file ->
  classify db_image f' r = classify db_image f r.
Proof.
  intros Hu Hr. unfold classify, file_bytes.
  rewrite (@isfile_untouched db_file f f' (fst r) Hu Hr).
  now rewrite (proj1 (Hu (fst r) Hr)).
Qed.

Lemma intact_rows_keep_nothing (f : filesystem) (rows : table) :
  (forall r, In r rows -> classify db_image f r = Intact) ->
  flat_map (fun r => corrupted_entry r (classify db_image f r)) rows = [].
Proof.
  induction rows as [|r rows IH]; intros H; simpl; [reflexivity|].
  rewrite (H r (or_introl eq_refl)). simpl. apply IH.
  intros r' Hr'. apply H. now right.
Qed.

(** X8.  [generate], then [verify].  Over a directory whose media files
    are all regular files, with the store absent or holding rows that are
    all intact (and none of them about the store file itself), [verify]
    run right after [generate] finds nothing corrupted and ends with
    status 0. *)
Theorem verify_after_generate (dir_path : string) (w : world) (t0 : table) :
  isdir (fs w) dir_path = true ->
  (find_path (roots (fs w)) (path_join dir_path DB_FILE) = None /\ t0 = []) \/
  store_table (fs w) (path_join dir_path DB_FILE) = Some t0 ->
  (forall m, In m (media_paths MEDIA_EXTENSIONS (walk (fs w) dir_path)) ->
             isfile (fs w) m = true) ->
  (forall r, In r t0 ->
             fst r <> path_join dir_path DB_FILE /\
             classify db_image (fs w) r = Intact) ->
  fst (verify db_image dir_path (snd (generate db_image dir_path w)))
  = Raise (SystemExit 0).
Proof.
  set (db_file := path_join dir_path DB_FILE).
  intros Hd Hstore Hreg Hold.
  destruct (@generate_run db_image dir_path w t0 Hd Hstore Hreg)
    as (w1 & es & Hrun & _ & _ & Hst).
  pose proof (@generate_keeps db_image dir_path w _ _ Hrun) as Hu.
  rewrite Hrun. cbn [snd]. fold db_file in Hst, Hu.
  rewrite (verify_run db_image dir_path w1 Hst). cbn [fst].
  rewrite intact_rows_keep_nothing; [reflexivity|].
  intros [p h] Hin. apply in_app_iff in Hin as [Hin|Hin].
  - destruct (Hold _ Hin) as [Hne Hc].
    now rewrite (@classify_untouched db_file _ _ (p, h) Hu Hne).
  - apply new_rows_spec in Hin as (Hp & _ & ->).
    assert (Hne : p <> db_file)
      by exact (@media_paths_not_db_file dir_path p _ Hp).
    rewrite (@classify_untouched db_file _ _ (p, _) Hu Hne).
    unfold classify. cbn [fst snd]. rewrite (Hreg p Hp).
    now rewrite String.eqb_refl.
Qed.

(** The files the loop opens are media files of the list that had no row
    when it started, however the loop ends. *)
Lemma generate_loop_opens (db_file : string) (ms : list string) :
  forall (w : world) (t : table) r w',
    store_table (fs w) db_file = Some t ->
    for_each ms (generate_step db_image db_file) w = (r, w') ->
    exists es : list event,
      trace w' = (trace w ++ es)%list /\
      forall p, In p (opens es) -> In p ms /\ Sqlite3.has_key t p = false.
Proof.
  induction ms as [|m ms IH]; intros w t r w' Ht; simpl.
  - intros [= <- <-]. exists []. rewrite app_nil_r. now split.
  - pose proof (@generate_step_run db_image db_file m w t Ht) as Hs.
    destruct (Sqlite3.has_key t m) eqn:Hk.
    + rewrite (bind_ret _ _ _ Hs). intros Hl.
      destruct (IH (logged w _) t r w' Ht Hl) as (es & Htr & Hop).
      exists (Execute db_file Sqlite3.q_select_path [m] :: es). split.
      * rewrite Htr. cbn [trace logged]. now rewrite <- app_assoc.
      * simpl. intros p Hp. destruct (Hop p Hp). now split; [right|].
    + destruct (find_path (roots (fs w)) m) as [[|?]|] eqn:Hfind.
      * rewrite (bind_ret _ _ _ Hs). intros Hl.
        match type of Hl with
        | for_each _ _ ?w1 = _ =>
            assert (Ht1 : store_table (fs w1) db_file
                          = Some (t ++ [new_row db_image (fs w) m])%list)
        end.
        { apply store_table_write. now apply (isfile_of_store _ _ Ht). }
        destruct (IH _ _ r w' Ht1 Hl) as (es & Htr & Hop).
        eexists. split.
        -- rewrite Htr. cbn [trace]. rewrite <- app_assoc. reflexivity.
        -- rewrite opens_app. simpl. intros p [<-|Hp].
           ++ now split; [left|].
           ++ destruct (Hop p Hp) as [Hin Hkp]. split; [now right|].
              unfold new_row in Hkp. rewrite has_key_app in Hkp.
              now apply orb_false_elim in Hkp.
      * rewrite (bind_raise _ _ _ Hs). intros [= <- <-]. eexists.
        split; [reflexivity|]. simpl. intros p [<-|[]]. now split; [left|].
      * rewrite (bind_raise _ _ _ Hs). intros [= <- <-]. eexists.
        split; [reflexivity|]. simpl. intros p [<-|[]]. now split; [left|].
Qed.

(** X9.  [generate] is incremental.  With a store that holds the table,
    whatever the run opens to hash is a media file found by the walk that
    had no row when the run started: a file with a row is never read
    again, and the store file is never read at all.  This holds however
    the run ends. *)
Theorem generate_hashes_only_new_files
        (dir_path : string) (w : world) (t0 : table) :
  store_table (fs w) (path_join dir_path DB_FILE) = Some t0 ->
  exists es : list event,
    trace (snd (generate db_image dir_path w)) = (trace w ++ es)%list /\
    forall p : string,
      In p (opens es) ->
      Sqlite3.has_key t0 p = false /\
      In p (media_paths MEDIA_EXTENSIONS (walk (fs w) dir_path)) /\
      p <> path_join dir_path DB_FILE.
Proof.
  set (db_file := path_join dir_path DB_FILE). intros Ht.
  destruct (isdir (fs w) dir_path) eqn:Hd.
  2:{ rewrite (generate_elsewhere db_image _ _ Hd). cbn [snd].
      eexists. split; [reflexivity|]. intros p []. }
  rewrite (generate_unfold db_image _ _ Hd). fold db_file.
  rewrite (bind_ret _ _ _ (prepare_store_existing _ _ (isfile_of_store _ _ Ht))).
  rewrite (bind_ret _ _ _ (find_files_run dir_path _ _)).
  cbn [fs logged].
  set (ms := media_paths MEDIA_EXTENSIONS (walk (fs w) dir_path)).
  destruct (for_each ms (generate_step db_image db_file)
              (logged w [Print (db_file ++ " exists. Will look for new files..."
                                        ++ nl)]))
    as [r w'] eqn:Hloop.
  destruct (@generate_loop_opens db_file ms
              (logged w [Print (db_file ++ " exists. Will look for new files..."
                                        ++ nl)])
              t0 r w' Ht Hloop)
    as (es & Htr & Hop).
  assert (Hall : forall p, In p (opens es) ->
                   Sqlite3.has_key t0 p = false /\ In p ms /\ p <> db_file).
  { intros p Hp. destruct (Hop p Hp) as [Hin Hk]. split; [exact Hk|].
    split; [exact Hin|]. exact (@media_paths_not_db_file dir_path p _ Hin). }
  destruct r as [[]|e].
  - rewrite (bind_ret _ _ _ Hloop).
    unfold bind, print, log, sys_exit, raise. cbn [snd trace fs].
    exists ([Print (db_file ++ " exists. Will look for new files..." ++ nl)]
              ++ es ++ [Print "Done"])%list.
    split.
    + rewrite Htr. cbn [trace logged]. now rewrite <- !app_assoc.
    + intros p Hp. apply Hall. rewrite !opens_app in Hp. simpl in Hp.
      now rewrite app_nil_r in Hp.
  - rewrite (bind_raise _ _ _ Hloop). cbn [snd].
    exists ([Print (db_file ++ " exists. Will look for new files..." ++ nl)]
              ++ es)%list.
    split.
    + rewrite Htr. cbn [trace logged]. now rewrite <- !app_assoc.
    + intros p Hp. apply Hall. now rewrite opens_app in Hp.
Qed.

End RoundTrip.

(* ===================================================================== *)
(** ** A store that cannot take rows *)
(* ===================================================================== *)

Section Unwritable.

Variable db_image : database -> list byte.

Lemma prepare_store_unwritable (db_file : string) (w : world) :
  unwritable (fs w) db_file ->
  exists es : list event,
    prepare_store db_file w = (Ret tt, logged w es) /\ opens es = [].
Proof.
  intros [Hn Hbad]. destruct (isfile (fs w) db_file) eqn:Hf.
  - rewrite (prepare_store_existing _ _ Hf). now eexists.
  - destruct Hbad as [Hf'|[e He]]; [congruence|].
    unfold prepare_store, bind at 1, os_path_isfile. rewrite Hf.
    unfold bind at 1. rewrite print_run.
    unfold database.create_new_database, database.execute_query, bind.
    cbn [fs logged]. rewrite He. cbn [fs trace print log ret].
    eexists. split.
    + unfold logged. cbn [fs trace]. rewrite <- app_assoc. reflexivity.
    + reflexivity.
Qed.

Lemma generate_step_unwritable_file (db_file m : string) (w : world) :
  unwritable (fs w) db_file ->
  isfile (fs w) m = true ->
  exists es : list event,
    generate_step db_image db_file m w = (Ret tt, logged w es) /\
    opens es = [m].
Proof.
  intros Hu Hf. unfold generate_step.
  destruct (@select_path_unwritable db_file m w Hu) as (es1 & H1 & Ho1).
  rewrite (bind_ret _ _ _ H1). cbn [negb].
  unfold bind at 1. rewrite print_run, logged_logged.
  rewrite (bind_ret _ _ _
             (generate_sha256_hash_file db_image m (logged w _) Hf)).
  rewrite logged_logged.
  match goal with
  | |- context [database.add_hash db_file m ?h ?w1] =>
      destruct (@insert_unwritable db_file m h w1 Hu) as (es2 & H2 & Ho2)
  end.
  rewrite H2, logged_logged. eexists. split; [reflexivity|].
  rewrite !opens_app, Ho1, Ho2. reflexivity.
Qed.

Lemma generate_loop_unwritable_files (db_file : string) (ms : list string) :
  forall w : world,
    unwritable (fs w) db_file ->
    (forall m, In m ms -> isfile (fs w) m = true) ->
    exists es : list event,
      for_each ms (generate_step db_image db_file) w = (Ret tt, logged w es) /\
      opens es = ms.
Proof.
  induction ms as [|m ms IH]; intros w Hu Hreg; simpl.
  - exists []. unfold ret. now rewrite logged_nil.
  - destruct (@generate_step_unwritable_file db_file m w Hu
                (Hreg m (or_introl eq_refl))) as (es1 & H1 & Ho1).
    rewrite (bind_ret _ _ _ H1).
    destruct (IH (logged w es1) Hu) as (es2 & H2 & Ho2).
    { intros k Hk. apply Hreg. now right. }
    rewrite H2, logged_logged. eexists. split; [reflexivity|].
    now rewrite opens_app, Ho1, Ho2.
Qed.

(** X10.  A store file that holds no table, or cannot be opened, is never
    repaired: over such a directory [generate] still prints [Done] and ends
    with status 0, but it leaves the file system as it found it, so no row
    is stored, and it hashes every media file of the walk, on every run. *)
Theorem generate_with_unwritable_store (dir_path : string) (w : world) :
  isdir (fs w) dir_path = true ->
  unwritable (fs w) (path_join dir_path DB_FILE) ->
  (forall m, In m (media_paths MEDIA_EXTENSIONS (walk (fs w) dir_path)) ->
             isfile (fs w) m = true) ->
  exists es : list event,
    generate db_image dir_path w = (Raise (SystemExit 0), logged w es) /\
    opens es = media_paths MEDIA_EXTENSIONS (walk (fs w) dir_path) /\
    last (printed es) "" = "Done" /\
    store_table (fs (logged w es)) (path_join dir_path DB_FILE) = None.
Proof.
  set (db_file := path_join dir_path DB_FILE). intros Hd Hu Hreg.
  rewrite (generate_unfold db_image _ _ Hd). fold db_file.
  destruct (@prepare_store_unwritable db_file w Hu) as (es0 & Hp & Ho0).
  rewrite (bind_ret _ _ _ Hp).
  rewrite (bind_ret _ _ _ (find_files_run dir_path _ _)). cbn [fs logged].
  destruct (@generate_loop_unwritable_files db_file _ (logged w es0) Hu Hreg)
    as (es1 & Hl & Ho1).
  rewrite (bind_ret _ _ _ Hl).
  unfold bind, print, log, sys_exit, raise. rewrite !logged_logged.
  exists (es0 ++ es1 ++ [Print "Done"])%list. split; [|split; [|split]].
  - unfold logged. cbn [fs trace]. now rewrite <- !app_assoc.
  - rewrite !opens_app, Ho0, Ho1. simpl. now rewrite app_nil_r.
  - rewrite app_assoc, printed_app. simpl. apply last_last.
  - exact (proj1 Hu).
Qed.

End Unwritable.

(* ===================================================================== *)
(** ** How [verify] ends, and what it looks at *)
(* ===================================================================== *)

Section VerifyOutcome.

Variable db_image : database -> list byte.

Lemma kept_nothing_iff (f : filesystem) (rows : table) :
  flat_map (fun r => corrupted_entry r (classify db_image f r)) rows = [] <->
  forall r, In r rows -> classify db_image f r = Intact.
Proof.
  split; [|apply intact_rows_keep_nothing].
  induction rows as [|r rows IH]; simpl; [contradiction|].
  intros H r' [<-|Hin].
  - destruct (classify db_image f r); [reflexivity|discriminate|discriminate].
  - apply IH; [|exact Hin]. now apply app_eq_nil in H.
Qed.

(** X11.  How [verify] ends.  Whatever the directory, a recorded path
    that is missing or names a directory never ends [verify] with the
    error [open] has for it, since [verify] asks [isfile] first.  The run
    ends with status 0 exactly when the store holds the table and every
    row of it is intact, and with the [TypeError] of the loop over [None]
    exactly when the store file is there without a table that can be
    read. *)
Theorem verify_exit_status (dir_path : string) (w : world) :
  let r := fst (verify db_image dir_path w) in
  (forall p : string,
     r <> Raise (FileNotFoundError p) /\ r <> Raise (IsADirectoryError p)) /\
  (exit_status r = 0%Z <->
   exists rows : table,
     store_table (fs w) (path_join dir_path DB_FILE) = Some rows /\
     forall row, In row rows -> classify db_image (fs w) row = Intact) /\
  (r = Raise (TypeError "'NoneType' object is not iterable") <->
   isfile (fs w) (path_join dir_path DB_FILE) = true /\
   store_table (fs w) (path_join dir_path DB_FILE) = None).
Proof.
  set (db_file := path_join dir_path DB_FILE). cbv zeta.
  destruct (isfile (fs w) db_file) eqn:Hf.
  - destruct (store_table (fs w) db_file) as [rows|] eqn:Ht.
    + rewrite (verify_run db_image dir_path w Ht). cbn [fst].
      pose proof (kept_nothing_iff (fs w) rows) as Hk.
      destruct (flat_map _ rows) as [|c cs] eqn:Hcs.
      * split; [intros p; split; discriminate|]. split.
        -- split; [|reflexivity]. intros _. exists rows.
           split; [reflexivity|]. now apply Hk.
        -- split; [discriminate|]. intros [_ H]. discriminate.
      * split; [intros p; split; discriminate|]. split.
        -- split; [discriminate|]. intros (rows' & [= <-] & Hall).
           apply Hk in Hall. discriminate.
        -- split; [discriminate|]. intros [_ H]. discriminate.
    + destruct (verify_unreadable_store db_image dir_path w Hf Ht) as [e ->].
      cbn [fst]. split; [intros p; split; discriminate|]. split.
      * split; [discriminate|]. intros (rows & H & _). discriminate.
      * now split.
  - rewrite (verify_nothing db_image _ _ Hf). cbn [fst].
    split; [intros p; split; discriminate|]. split.
    + split; [discriminate|]. intros (rows & H & _).
      unfold store_table in H. fold db_file in H. rewrite Hf in H. discriminate.
    + split; [discriminate|]. intros [H _]. discriminate.
Qed.

(** X12.  [verify] looks at the stored rows and at the files they name,
    and at nothing else.  Two worlds with the same rows in the store, in
    which every recorded path is a regular file in both or in neither, with
    the same bytes, get the same result and the same lines, whatever other
    files were added, removed or changed. *)
Theorem verify_sees_only_recorded_files
        (dir_path : string) (w w' : world) (rows : table) :
  store_table (fs w) (path_join dir_path DB_FILE) = Some rows ->
  store_table (fs w') (path_join dir_path DB_FILE) = Some rows ->
  (forall r, In r rows ->
             isfile (fs w') (fst r) = isfile (fs w) (fst r) /\
             file_bytes db_image (fs w') (fst r)
             = file_bytes db_image (fs w) (fst r)) ->
  fst (verify db_image dir_path w') = fst (verify db_image dir_path w) /\
  exists es : list event,
    snd (verify db_image dir_path w) = logged w es /\
    snd (verify db_image dir_path w') = logged w' es.
Proof.
  intros Ht Ht' Hsame.
  rewrite (verify_run db_image dir_path w Ht).
  rewrite (verify_run db_image dir_path w' Ht'). cbn [fst snd].
  assert (Hc : forall r, In r rows ->
                 classify db_image (fs w') r = classify db_image (fs w) r).
  { intros r Hr. destruct (Hsame r Hr) as [Hf Hb]. unfold classify.
    now rewrite Hf, Hb. }
  assert (Hk : flat_map (fun r => corrupted_entry r (classify db_image (fs w') r)) rows
               = flat_map (fun r => corrupted_entry r (classify db_image (fs w) r)) rows).
  { clear Ht Ht' Hsame. induction rows as [|r rows IH]; simpl; [reflexivity|].
    rewrite (Hc r (or_introl eq_refl)), IH; [reflexivity|].
    intros r' Hr'. apply Hc. now right. }
  assert (He : flat_map (fun r => record_events r (classify db_image (fs w') r)) rows
               = flat_map (fun r => record_events r (classify db_image (fs w) r)) rows).
  { clear Ht Ht' Hsame Hk. induction rows as [|r rows IH]; simpl; [reflexivity|].
    rewrite (Hc r (or_introl eq_refl)), IH; [reflexivity|].
    intros r' Hr'. apply Hc. now right. }
  rewrite Hk, He. split; [reflexivity|]. eexists. split; reflexivity.
Qed.

End VerifyOutcome.

(* ===================================================================== *)
(** ** More on the walk, the read loop and the digest *)
(* ===================================================================== *)

Lemma endswith_join (root name ext : string) :
  PyStr.endswith name ext = true ->
  PyStr.endswith (path_join root name) ext = true.
Proof.
  rewrite !endswith_iff. intros [q ->].
  destruct (path_join_suffix root (q ++ ext)) as [q' ->].
  exists (q' ++ q). now rewrite append_assoc.
Qed.

(** X13.  For any tuple of extensions, [find_files_with_extension] leaves
    the world alone, every path it returns ends with one of the extensions
    asked for, and with the empty tuple it returns nothing. *)
Theorem found_paths_end_with_an_extension
        (dir_path : string) (extensions : list string) (w : world) :
  exists files : list string,
    find_files_with_extension dir_path extensions w = (Ret files, w) /\
    Forall (fun p => PyStr.endswith_any p extensions = true) files /\
    (extensions = [] -> files = []).
Proof.
  exists (media_paths extensions (walk (fs w) dir_path)).
  split; [apply find_files_run|]. split.
  - rewrite media_paths_walked. apply Forall_forall. intros p Hp.
    apply in_map_iff in Hp as [[root name] [<- Hp]].
    apply filter_In in Hp as [_ Hm]. cbn [fst snd] in *.
    unfold PyStr.endswith_any in *. apply existsb_exists in Hm as [ext [Hin He]].
    apply existsb_exists. exists ext. split; [exact Hin|].
    now apply endswith_join.
  - intros ->. rewrite media_paths_walked.
    induction (walked_files (walk (fs w) dir_path)) as [|rn l IH];
      [reflexivity|exact IH].
Qed.

(** X14.  On a path that is no directory, a regular file or nothing at
    all, the walk yields nothing and [find_files_with_extension] returns
    the empty list. *)
Theorem nothing_found_outside_a_directory
        (dir_path : string) (extensions : list string) (w : world) :
  isdir (fs w) dir_path = false ->
  find_files_with_extension dir_path extensions w = (Ret [], w).
Proof.
  intros Hd. rewrite find_files_run. unfold walk, isdir in *.
  now destruct (find_path (roots (fs w)) dir_path) as [[|es]|].
Qed.

Lemma read_blocks_nil (n : nat) : read_blocks n [] = [].
Proof. rewrite read_blocks_step. now destruct n. Qed.

Lemma read_blocks_cons (n : nat) (f : list byte) :
  (0 < n)%nat -> f <> [] ->
  read_blocks n f = firstn n f :: read_blocks n (skipn n f).
Proof.
  intros Hn Hf. rewrite read_blocks_step.
  destruct n as [|n]; [lia|]. destruct f as [|x f]; [contradiction|].
  reflexivity.
Qed.

(** X15.  The read loop reads a file of [len] bytes in [ceil (len / n)]
    blocks: every block but the last has exactly [n] bytes, no block is
    empty or longer than [n], and an empty file gives no block at all. *)
Theorem read_blocks_shape (n : nat) (f : list byte) :
  (0 < n)%nat ->
  List.length (read_blocks n f) = ((List.length f + n - 1) / n)%nat /\
  Forall (fun b => (0 < List.length b <= n)%nat) (read_blocks n f) /\
  forall i : nat,
    (i + 1 < List.length (read_blocks n f))%nat ->
    List.length (nth i (read_blocks n f) []) = n.
Proof.
  intros Hn. split; [|split; [apply read_blocks_bounded|]].
  - remember (List.length f) as k eqn:Hk.
    revert f Hk. induction k as [k IH] using lt_wf_ind. intros f Hk.
    destruct f as [|x f].
    + rewrite read_blocks_nil. simpl in Hk. subst k. simpl.
      symmetry. apply Nat.div_small. lia.
    + rewrite read_blocks_cons by (auto; discriminate).
      cbn [List.length]. cbn [List.length] in Hk.
      rewrite (IH (List.length (skipn n (x :: f)))) with (f := skipn n (x :: f));
        [|rewrite length_skipn; cbn [List.length]; lia|reflexivity].
      rewrite length_skipn. cbn [List.length].
      destruct (Nat.le_gt_cases n (S (List.length f))) as [Hle|Hgt].
      * replace (S (List.length f) - n + n - 1)%nat
          with (S (List.length f) - 1)%nat by lia.
        replace (k + n - 1)%nat with ((S (List.length f) - 1) + 1 * n)%nat by lia.
        rewrite Nat.div_add by lia. lia.
      * replace (S (List.length f) - n + n - 1)%nat with (n - 1)%nat by lia.
        rewrite (Nat.div_small (n - 1) n) by lia.
        apply (Nat.div_unique _ _ 1%nat (k - 1)%nat); lia.
  - remember (List.length f) as k eqn:Hk.
    revert f Hk. induction k as [k IH] using lt_wf_ind. intros f Hk i Hi.
    destruct f as [|x f]; [rewrite read_blocks_nil in Hi; simpl in Hi; lia|].
    rewrite read_blocks_cons in * by (auto; discriminate).
    cbn [List.length] in Hi.
    destruct i as [|i].
    + cbn [nth]. rewrite length_firstn.
      destruct (skipn n (x :: f)) as [|y r] eqn:Hs.
      * rewrite read_blocks_nil in Hi. simpl in Hi. lia.
      * assert (Hl : List.length (skipn n (x :: f)) = S (List.length r))
          by now rewrite Hs.
        rewrite length_skipn in Hl. lia.
    + cbn [nth].
      apply (IH (List.length (skipn n (x :: f)))) with (f := skipn n (x :: f)).
      * rewrite length_skipn. subst k. cbn [List.length]. lia.
      * reflexivity.
      * lia.
Qed.

(** The digest is 64 hex digits, in lower case. *)
Definition is_hex_digit (c : ascii) : bool :=
  existsb (Ascii.eqb c) (list_ascii_of_string "0123456789abcdef").

Definition all_hex (s : string) : bool :=
  forallb is_hex_digit (list_ascii_of_string s).

Lemma all_hex_append (a b : string) :
  all_hex (a ++ b) = all_hex a && all_hex b.
Proof.
  unfold all_hex. induction a as [|c a IH]; [reflexivity|].
  simpl. now rewrite IH, andb_assoc.
Qed.

Lemma length_of_list_ascii (l : list ascii) :
  String.length (string_of_list_ascii l) = List.length l.
Proof. induction l as [|c l IH]; simpl; [reflexivity|now rewrite IH]. Qed.

Lemma hex_digit_is_hex (n : Z) :
  (0 <= n < 16)%Z -> is_hex_digit (SHA256.hex_digit n) = true.
Proof.
  intros H.
  assert (Hn : exists k : nat, (k < 16)%nat /\ n = Z.of_nat k)
    by (exists (Z.to_nat n); lia).
  destruct Hn as (k & Hk & ->).
  do 16 (destruct k as [|k]; [reflexivity|]). lia.
Qed.

Lemma hex_word_shape (w : Z) :
  String.length (SHA256.hex_word w) = 8%nat /\ all_hex (SHA256.hex_word w) = true.
Proof.
  unfold SHA256.hex_word. split.
  - now rewrite length_of_list_ascii, length_map, length_seq.
  - unfold all_hex. rewrite list_ascii_of_string_of_list_ascii.
    apply forallb_forall. intros c Hc. apply in_map_iff in Hc as [i [<- _]].
    apply hex_digit_is_hex. apply Z.mod_pos_bound. lia.
Qed.

Lemma concat_words_shape (ws : list Z) :
  String.length (String.concat "" (map SHA256.hex_word ws))
  = (8 * List.length ws)%nat /\
  all_hex (String.concat "" (map SHA256.hex_word ws)) = true.
Proof.
  induction ws as [|w ws [IHl IHh]]; [now split|].
  destruct (hex_word_shape w) as [Hl Hh].
  destruct ws as [|w' ws].
  - simpl String.concat. rewrite Hl, Hh. now split.
  - change (String.concat "" (map SHA256.hex_word (w :: w' :: ws)))
      with (SHA256.hex_word w
              ++ "" ++ String.concat "" (map SHA256.hex_word (w' :: ws))).
    change ("" ++ ?s) with s.
    rewrite length_append, all_hex_append, Hl, Hh, IHl, IHh.
    split; [cbn [List.length]; lia|reflexivity].
Qed.

Lemma round_length (st : list Z) (kw : Z * Z) :
  List.length st = 8%nat -> List.length (SHA256.round st kw) = 8%nat.
Proof.
  intros H. do 9 (destruct st as [|? st]; try discriminate). reflexivity.
Qed.

Lemma compress_length (h block : list Z) :
  List.length h = 8%nat -> List.length (SHA256.compress h block) = 8%nat.
Proof.
  intros H. unfold SHA256.compress. rewrite length_map, length_combine, H.
  assert (Hf : forall l st, List.length st = 8%nat ->
                 List.length (fold_left SHA256.round l st) = 8%nat).
  { induction l as [|kw l IH]; intros st Hst; simpl; [exact Hst|].
    apply IH. now apply round_length. }
  now rewrite Hf.
Qed.

Lemma digest_words_length (msg : list Z) :
  List.length (SHA256.digest_words msg) = 8%nat.
Proof.
  unfold SHA256.digest_words.
  assert (Hf : forall bs h, List.length h = 8%nat ->
                 List.length (fold_left SHA256.compress bs h) = 8%nat).
  { induction bs as [|b bs IH]; intros h Hh; simpl; [exact Hh|].
    apply IH. now apply compress_length. }
  apply Hf. reflexivity.
Qed.

Section Digest.

Variable db_image : database -> list byte.

(** X16.  The hash [generate_sha256_hash] returns for a regular file,
    whatever the file holds, is a string of 64 hex digits in lower case. *)
Theorem hash_is_64_hex_digits (path : string) (w : world) :
  isfile (fs w) path = true ->
  exists h : string,
    fst (generate_sha256_hash db_image path w) = Ret h /\
    String.length h = 64%nat /\
    all_hex h = true.
Proof.
  intros Hf. rewrite (generate_sha256_hash_file db_image path w Hf). cbn [fst].
  eexists. split; [reflexivity|]. unfold SHA256.hexdigest.
  destruct (concat_words_shape
              (SHA256.digest_words
                 (map (fun b => Z.of_N (Byte.to_N b))
                      (file_bytes db_image (fs w) path)))) as [Hl Hh].
  rewrite digest_words_length in Hl. now split.
Qed.

End Digest.

(* ===================================================================== *)
(** ** How the script ends *)
(* ===================================================================== *)

(** An exception that ends the interpreter with status 0 or 1. *)
Definition ends_with_0_or_1 (e : exn) : Prop :=
  match e with
  | SystemExit code => code = 0%Z \/ code = 1%Z
  | _ => True
  end.

(** A computation that can only raise such exceptions. *)
Definition raises_only {A : Type} (c : M A) : Prop :=
  forall (w : world) (r : result A) (w' : world),
    c w = (r, w') ->
    match r with Ret _ => True | Raise e => ends_with_0_or_1 e end.

(** A computation that never returns. *)
Definition never_returns {A : Type} (c : M A) : Prop :=
  forall w : world, exists (e : exn) (w' : world), c w = (Raise e, w').

Lemma raises_only_bind {A B : Type} (c : M A) (k : A -> M B) :
  raises_only c -> (forall a, raises_only (k a)) -> raises_only (bind c k).
Proof.
  intros Hc Hk w r w'. unfold bind.
  destruct (c w) as [[a|e] w1] eqn:E; intros H.
  - exact (Hk a _ _ _ H).
  - injection H as <- <-. exact (Hc _ _ _ E).
Qed.

Lemma raises_only_returns {A : Type} (c : M A) :
  (forall w, exists a w', c w = (Ret a, w')) -> raises_only c.
Proof. intros H w r w' E. destruct (H w) as (a & w1 & Ha). now rewrite Ha in E; injection E as <- _. Qed.

Lemma raises_only_for_each {A : Type} (l : list A) (body : A -> M unit) :
  (forall x, raises_only (body x)) -> raises_only (for_each l body).
Proof.
  intros Hb. induction l as [|x l IH]; simpl.
  - now intros w r w' [= <- _].
  - apply raises_only_bind; [apply Hb|intros _; exact IH].
Qed.

Lemma never_returns_bind {A B : Type} (c : M A) (k : A -> M B) :
  (forall a, never_returns (k a)) -> never_returns (bind c k).
Proof.
  intros Hk w. unfold bind. destruct (c w) as [[a|e] w1].
  - apply Hk.
  - now eexists; eexists.
Qed.

Section Endings.

Variable db_image : database -> list byte.

Lemma hash_raises_only (path : string) :
  raises_only (generate_sha256_hash db_image path).
Proof.
  intros w r w' E. destruct (hash_world db_image path w) as (r0 & Hh & Hne).
  rewrite Hh in E. injection E as <- _.
  destruct r0 as [h|[code| | |]]; try exact I. exfalso. now apply (Hne code).
Qed.

Lemma query_raises_only (db_file query : string) (ps : option (list string)) :
  raises_only (database.execute_query db_file query ps).
Proof. apply raises_only_returns. intros w. apply execute_query_returns. Qed.

Lemma generate_raises_only (dir_path : string) :
  raises_only (generate db_image dir_path).
Proof.
  assert (Hpure : forall (A : Type) (g : world -> A),
             raises_only (fun w => (Ret (g w), w)))
    by (intros A g w r w' [= <- _]; exact I).
  assert (Hlog : forall e, raises_only (log e))
    by (intros e w r w' [= <- _]; exact I).
  assert (Hret : forall (A : Type) (a : A), raises_only (ret a))
    by (intros A a w r w' [= <- _]; exact I).
  assert (Hexit : forall (A : Type) (code : Z),
             code = 0%Z \/ code = 1%Z -> raises_only (@raise A (SystemExit code)))
    by (intros A code Hc w r w' [= <- _]; exact Hc).
  unfold generate, database.create_new_database, database.media_file_exist,
    database.add_hash, os_path_isdir, os_path_isfile,
    find_files_with_extension, print, sys_exit.
  repeat first
    [ apply Hret | apply Hlog | apply Hexit; lia | apply query_raises_only
    | apply Hpure | apply hash_raises_only
    | apply raises_only_for_each
    | apply raises_only_bind
    | match goal with
      | |- raises_only (if negb ?b then _ else _) => destruct b; cbn [negb]
      | |- raises_only (if ?b then _ else _) => destruct b
      end
    | intro ].
Qed.

Lemma generate_never_returns (dir_path : string) :
  never_returns (generate db_image dir_path).
Proof.
  unfold generate, sys_exit.
  apply never_returns_bind. intros [|].
  - do 4 (apply never_returns_bind; intros ?).
    intros w. now eexists; eexists.
  - apply never_returns_bind. intros _ w. now eexists; eexists.
Qed.

Lemma verify_outcomes (dir_path : string) (w : world) :
  fst (verify db_image dir_path w) = Raise (SystemExit 0) \/
  fst (verify db_image dir_path w) = Raise (SystemExit 1) \/
  fst (verify db_image dir_path w)
  = Raise (TypeError "'NoneType' object is not iterable").
Proof.
  destruct (isfile (fs w) (path_join dir_path DB_FILE)) eqn:Hf.
  - destruct (store_table (fs w) (path_join dir_path DB_FILE)) as [rows|] eqn:Ht.
    + rewrite (verify_run db_image dir_path w Ht). cbn [fst].
      destruct (flat_map _ rows); auto.
    + destruct (verify_unreadable_store db_image dir_path w Hf Ht) as [e ->].
      auto.
  - rewrite (verify_nothing db_image _ _ Hf). auto.
Qed.

(** X17.  How the script ends.  Whatever its arguments and the world, the
    script never falls off its end: it ends in an exception, and the exit
    status is 0 or 1.  Arguments after the second are ignored. *)
Theorem main_exit_status (args : list string) (w : world) :
  (exists e : exn, fst (main db_image args w) = Raise e) /\
  (exit_status (fst (main db_image args w)) = 0%Z \/
   exit_status (fst (main db_image args w)) = 1%Z) /\
  forall option directory rest,
    args = option :: directory :: rest ->
    main db_image args w = main db_image [option; directory] w.
Proof.
  assert (Hshape : exists e : exn,
             fst (main db_image args w) = Raise e /\ ends_with_0_or_1 e).
  { unfold main. destruct (List.length args <? 2)%nat.
    - eexists. split; [reflexivity|]. now right.
    - destruct (String.eqb (nth 0 args "") "-g").
      + destruct (generate_never_returns (nth 1 args "") w) as (e & w' & E).
        exists e. rewrite E. split; [reflexivity|].
        exact (@generate_raises_only (nth 1 args "") w _ w' E).
      + destruct (String.eqb (nth 0 args "") "-v").
        * pose proof (verify_outcomes (nth 1 args "") w) as [H|[H|H]];
            rewrite H; eexists; (split; [reflexivity|]); simpl; auto.
        * eexists. split; [reflexivity|]. now right. }
  destruct Hshape as (e & He & Hend). split; [now exists e|]. split.
  - rewrite He. destruct e as [code| | |]; simpl in *; auto.
  - intros option directory rest ->. reflexivity.
Qed.

End Endings.

(** X18.  The two lookups are exact and read only.  On a store that holds
    the table, [media_file_exist] answers [True] exactly for the paths that
    have a row, [get_hashes] returns the rows as they are, and neither
    changes the file system or prints anything. *)
Theorem lookups_are_exact (db_file p : string) (w : world) (t : table) :
  store_table (fs w) db_file = Some t ->
  (fst (database.media_file_exist db_file p w) = Ret true <-> In p (map fst t)) /\
  (fst (database.media_file_exist db_file p w) = Ret false <->
   ~ In p (map fst t)) /\
  fst (database.get_hashes db_file w) = Ret (Some t) /\
  fs (snd (database.media_file_exist db_file p w)) = fs w /\
  fs (snd (database.get_hashes db_file w)) = fs w /\
  stdout (snd (database.media_file_exist db_file p w)) = stdout w /\
  stdout (snd (database.get_hashes db_file w)) = stdout w.
Proof.
  intros Ht. rewrite (@media_file_exist_run db_file p w t Ht).
  rewrite (@select_all_run db_file w t Ht). cbn [fst snd].
  rewrite <- has_key_false_iff, <- has_key_iff.
  rewrite !stdout_logged. simpl. rewrite !app_nil_r.
  repeat split; congruence.
Qed.

(* ===================================================================== *)
(** ** The candidates of [generate] *)
(* ===================================================================== *)


Section Candidates.

Variable db_image : database -> list byte.




End Candidates.

(* ===================================================================== *)
(** ** The further properties, at the library *)
(* ===================================================================== *)

Module Coverage.

Import Library.

(** The library with its store as a run of [generate] leaves it. *)
Definition kept : world :=
  mkWorld
    (mkFs [("lib", Dir [("a.mp4", File);
                        ("b.txt", File);
                        ("sub", Dir [("c.mkv", File); ("x.MP4", File)]);
                        ("hashmyfiles.db", File)])]
          (fun p => if String.eqb p "lib/hashmyfiles.db" then Sqlite (Some rows)
                    else if String.eqb p "lib/a.mp4"
                         then Raw (list_byte_of_string "X")
                         else Raw (list_byte_of_string "hello")))
    [].

(** The same, after a file without a row was rewritten. *)
Definition edited : world :=
  mkWorld (write_data (fs kept) "lib/b.txt" (Raw (list_byte_of_string "bye"))) [].

Lemma kept_store : store_table (fs kept) (path_join "lib" DB_FILE) = Some rows.
Proof. reflexivity. Defined.

Lemma rows_unique : NoDup (map fst rows).
Proof.
  repeat constructor; simpl; intuition discriminate.
Defined.

Lemma start_media_are_files :
  forall m, In m (media_paths MEDIA_EXTENSIONS (walk (fs start) "lib")) ->
            isfile (fs start) m = true.
Proof. intros m [<-|[<-|[]]]; reflexivity. Defined.

Lemma add_hash_then_lookup_lib :
  fst (database.media_file_exist "lib/hashmyfiles.db" "lib/new.mp4"
         (snd (database.add_hash "lib/hashmyfiles.db" "lib/new.mp4" "00" kept)))
  = Ret true.
Proof.
  refine (proj1 (proj2 (@add_hash_then_lookup "lib/hashmyfiles.db" "lib/new.mp4"
                          "00" kept rows _ _)));
    reflexivity.
Defined.

Lemma add_hash_twice_keeps_first_lib :
  fs (snd (database.add_hash "lib/hashmyfiles.db" "lib/a.mp4" "00" kept))
  = fs kept.
Proof.
  refine (proj1 (@add_hash_twice_keeps_first "lib/hashmyfiles.db" "lib/a.mp4"
                   "00" kept rows _ _));
    reflexivity.
Defined.

Lemma create_new_database_keeps_rows_lib :
  fs (snd (database.create_new_database "lib/hashmyfiles.db" kept)) = fs kept.
Proof.
  refine (proj1 (@create_new_database_keeps_rows "lib/hashmyfiles.db" kept
                   rows _)).
  reflexivity.
Defined.

Lemma create_new_database_makes_empty_store_lib :
  store_table
    (fs (snd (database.create_new_database (path_join "lib" DB_FILE) start)))
    (path_join "lib" DB_FILE)
  = Some [].
Proof.
  refine (proj1 (@create_new_database_makes_empty_store "lib" start _ _));
    reflexivity.
Defined.

Lemma store_operations_keep_rows_lib :
  exists new : table,
    store_table
      (fs (snd (database.add_hash "lib/hashmyfiles.db" "lib/new.mp4" "00" kept)))
      "lib/hashmyfiles.db"
    = Some (rows ++ new)%list /\
    (List.length new <= 1)%nat /\
    NoDup (map fst (rows ++ new)%list).
Proof.
  exact (proj1 (proj2 (proj2
           (@store_operations_keep_rows "lib/hashmyfiles.db" "lib/new.mp4" "00"
              kept rows kept_store rows_unique)))).
Defined.

Lemma generate_touches_only_the_store_lib :
  data (fs (snd (generate image "lib" start))) "lib/a.mp4"
  = data (fs start) "lib/a.mp4".
Proof.
  refine (proj1 (@generate_touches_only_the_store image "lib" start
                   "lib/a.mp4" _)).
  discriminate.
Defined.

Lemma generate_stores_new_rows_lib :
  fst (generate image "lib" start) = Raise (SystemExit 0).
Proof.
  refine (proj1 (@generate_stores_new_rows image "lib" start []
                   _ _ start_media_are_files)).
  - reflexivity.
  - left. split; reflexivity.
Defined.

Lemma verify_after_generate_lib :
  fst (verify image "lib" (snd (generate image "lib" start)))
  = Raise (SystemExit 0).
Proof.
  refine (@verify_after_generate image "lib" start []
            _ _ start_media_are_files _).
  - reflexivity.
  - left. split; reflexivity.
  - intros r [].
Defined.

Lemma generate_hashes_only_new_files_lib :
  exists es : list event,
    trace (snd (generate image "lib" kept)) = (trace kept ++ es)%list /\
    forall p : string,
      In p (opens es) ->
      Sqlite3.has_key rows p = false /\
      In p (media_paths MEDIA_EXTENSIONS (walk (fs kept) "lib")) /\
      p <> path_join "lib" DB_FILE.
Proof.
  exact (@generate_hashes_only_new_files image "lib" kept rows kept_store).
Defined.

Lemma generate_with_unwritable_store_lib :
  exists es : list event,
    generate image "lib" blank = (Raise (SystemExit 0), logged blank es) /\
    opens es = media_paths MEDIA_EXTENSIONS (walk (fs blank) "lib") /\
    last (printed es) "" = "Done" /\
    store_table (fs (logged blank es)) (path_join "lib" DB_FILE) = None.
Proof.
  apply (@generate_with_unwritable_store image "lib" blank).
  - reflexivity.
  - split; [reflexivity|]. left. reflexivity.
  - intros m [<-|[]]. reflexivity.
Defined.

Lemma verify_sees_only_recorded_files_lib :
  fst (verify image "lib" edited) = fst (verify image "lib" kept).
Proof.
  refine (proj1 (@verify_sees_only_recorded_files image "lib" kept edited
                   rows _ _ _)).
  - reflexivity.
  - reflexivity.
  - intros r [<-|[<-|[]]]; split; reflexivity.
Defined.

Lemma nothing_found_outside_a_directory_lib :
  find_files_with_extension "lib/a.mp4" MEDIA_EXTENSIONS start = (Ret [], start).
Proof.
  apply (@nothing_found_outside_a_directory "lib/a.mp4" MEDIA_EXTENSIONS start).
  reflexivity.
Defined.

Lemma read_blocks_shape_abcde :
  List.length (read_blocks 2 (list_byte_of_string "abcde")) = 3%nat.
Proof.
  refine (proj1 (@read_blocks_shape 2 (list_byte_of_string "abcde") _)).
  repeat constructor.
Defined.

Lemma hash_is_64_hex_digits_lib :
  exists h : string,
    fst (generate_sha256_hash image "lib/a.mp4" start) = Ret h /\
    String.length h = 64%nat /\
    all_hex h = true.
Proof.
  apply (@hash_is_64_hex_digits image "lib/a.mp4" start). reflexivity.
Defined.

Lemma lookups_are_exact_lib :
  fst (database.get_hashes "lib/hashmyfiles.db" kept) = Ret (Some rows).
Proof.
  refine (proj1 (proj2 (proj2 (@lookups_are_exact "lib/hashmyfiles.db"
                                 "lib/a.mp4" kept rows _)))).
  reflexivity.
Defined.




End Coverage.
